(** * Langsam Songs Downloader: the browser-side download controller

    A shallow embedding of the two variants of the controller script that the
    repository ships, [static/js/app.js] (module [App], the retrying variant)
    and the second copy of the script (module [Single], the single-attempt
    variant), and the properties of its validation, formatting and
    download state machine.

    Conventions of the embedding.
    - A JavaScript string is a [string]; each character stands for one
      UTF-16 code unit in the range U+0000..U+00FF.
    - A JavaScript number that the script computes with is an integer [Z]
      (seconds, percentages, milliseconds); [NaN] is a value of its own.
    - The page (the DOM elements the script binds at load time), the timer
      queue, the document body and the trace of observable actions are
      fields of one [state]; the script's functions pass it explicitly,
      those that can throw through the monad [M]. *)

From Stdlib Require Import String Ascii List ZArith NArith Bool Arith Lia.
From Stdlib Require Import DecimalString.
From Equations Require Import Equations.
Import ListNotations.

Local Open Scope string_scope.
Local Open Scope bool_scope.

(* ===================================================================== *)
(** ** Strings as sequences of code units *)
(* ===================================================================== *)

Definition chars : string -> list ascii := list_ascii_of_string.
Definition text : list ascii -> string := string_of_list_ascii.

Definition code (c : ascii) : N := N_of_ascii c.

Definition in_range (lo hi : N) (c : ascii) : bool :=
  (lo <=? code c)%N && (code c <=? hi)%N.

(** [WhiteSpace] and [LineTerminator] code units below U+0100: what
    [String.prototype.trim] strips and what the class [\s] matches. *)
Definition is_space (c : ascii) : bool :=
  in_range 9 13 c || (code c =? 32)%N || (code c =? 160)%N.

Fixpoint trimStart (s : list ascii) : list ascii :=
  match s with
  | c :: s' => if is_space c then trimStart s' else s
  | [] => []
  end.

Definition trimEnd (s : list ascii) : list ascii := rev (trimStart (rev s)).

(** [s.trim()] *)
Definition trim (s : string) : string := text (trimEnd (trimStart (chars s))).

(** [s.substring(0, n)] *)
Definition substring0 (n : nat) (s : list ascii) : list ascii := firstn n s.

(* ===================================================================== *)
(** ** Regular expressions: the fragment the script's literals use *)
(* ===================================================================== *)

Module Regex.

Inductive node : Type :=
| Char (c : ascii)                 (* a pattern character, escaped or not *)
| Class (member : ascii -> bool)   (* a bracket class such as [\w-] *)
| Bol                              (* ^ *)
| Empty
| Seq (r1 r2 : node)
| Alt (r1 r2 : node)
| Opt (r : node)                   (* r? *)
| Plus (r : node).                 (* r+ *)

(** The literal sequence of the characters of [s]. *)
Fixpoint lit_chars (s : list ascii) : node :=
  match s with
  | [] => Empty
  | c :: s' => Seq (Char c) (lit_chars s')
  end.
Definition lit (s : string) : node := lit_chars (chars s).

(** [Canonicalize(ch)] of a pattern without the [u] flag: the code unit of
    the upper-case form when that form is one code unit, except that a
    code unit from U+0080 on never maps below U+0080. *)
Definition canonicalize (c : ascii) : N :=
  let n := code c in
  if in_range 97 122 c then (n - 32)%N
  else if (n =? 181)%N then 924%N
  else if (n =? 255)%N then 376%N
  else if in_range 224 254 c && negb (n =? 247)%N then (n - 32)%N
  else n.

Definition code_units : list ascii := map ascii_of_nat (seq 0 256).

Section Matcher.
(** The [i] flag of the literal. *)
Variable ignoreCase : bool.

Definition char_matches (p x : ascii) : bool :=
  if ignoreCase then (canonicalize p =? canonicalize x)%N
  else (code p =? code x)%N.

Definition class_matches (member : ascii -> bool) (x : ascii) : bool :=
  if ignoreCase
  then existsb (fun a => member a && (canonicalize a =? canonicalize x)%N)
               code_units
  else member x.

(** A position in the input: the index reached and the input left. *)
Definition position : Type := nat * list ascii.

(** The iterations of [r+], [step] matching [r] once: an iteration after the
    first must consume input, as [RepeatMatcher] requires; [fuel] bounds
    the iterations by the length of the input. *)
Fixpoint iterate (step : position -> (position -> bool) -> bool)
    (k : position -> bool) (fuel : nat) (q : position) : bool :=
  step q (fun q' =>
    match fuel with
    | S fuel' =>
        (if (List.length (snd q') <? List.length (snd q))%nat
         then iterate step k fuel' q' else false) || k q'
    | 0 => k q'
    end).

(** Backtracking matcher in continuation-passing style; [k] is the rest
    of the pattern. *)
Fixpoint run (r : node) (p : position) (k : position -> bool) : bool :=
  match r with
  | Char c =>
      match p with
      | (i, x :: s) => char_matches c x && k (S i, s)
      | (_, []) => false
      end
  | Class m =>
      match p with
      | (i, x :: s) => class_matches m x && k (S i, s)
      | (_, []) => false
      end
  | Bol => match p with (0, _) => k p | _ => false end
  | Empty => k p
  | Seq r1 r2 => run r1 p (fun p' => run r2 p' k)
  | Alt r1 r2 => run r1 p k || run r2 p k
  | Opt r1 => run r1 p k || k p
  | Plus r1 => iterate (run r1) k (List.length (snd p)) p
  end.

(** Does [r] match at some start index of the rest [s] (at index [i])? *)
Fixpoint search (r : node) (i : nat) (s : list ascii) : bool :=
  run r (i, s) (fun _ => true)
  || match s with
     | [] => false
     | _ :: s' => search r (S i) s'
     end.

(** [r.test(s)] of a literal without the [g] and [y] flags. *)
Definition test (r : node) (s : string) : bool := search r 0 (chars s).
End Matcher.

(** [\w] *)
Definition word_char (c : ascii) : bool :=
  in_range 97 122 c || in_range 65 90 c || in_range 48 57 c
  || (code c =? 95)%N.

End Regex.

Import Regex.

(* ===================================================================== *)
(** ** JavaScript values, numbers and errors *)
(* ===================================================================== *)

(** The values a [duration] can hold: absent, [null], a boolean, [NaN] or an
    integer number of seconds.  String and object durations are outside the
    interface of the info endpoint and outside this model. *)
Inductive value : Type :=
| JUndefined
| JNull
| JBool (b : bool)
| JNaN
| JNum (z : Z).

(** A number: an integer, or [None] for [NaN].  The script computes on
    doubles, which agree with the integers here as long as these stay
    below 2^53 ([displayable] below). *)
Definition number : Type := option Z.

(** [ToBoolean] *)
Definition truthy (v : value) : bool :=
  match v with
  | JUndefined | JNull | JNaN => false
  | JBool b => b
  | JNum z => negb (z =? 0)%Z
  end.

(** [ToNumber] *)
Definition to_number (v : value) : number :=
  match v with
  | JUndefined | JNaN => None
  | JNull => Some 0%Z
  | JBool b => Some (if b then 1 else 0)%Z
  | JNum z => Some z
  end.

(** [a <= b] and [a > b]: false as soon as a side is [NaN]. *)
Definition num_le (a b : number) : bool :=
  match a, b with Some x, Some y => (x <=? y)%Z | _, _ => false end.
Definition num_gt (a b : number) : bool :=
  match a, b with Some x, Some y => (y <? x)%Z | _, _ => false end.

(** [Math.floor(a / d)] for a positive integer constant [d]. *)
Definition floor_div (a : number) (d : Z) : number :=
  option_map (fun x => (x / d)%Z) a.
(** [a % d]: the remainder has the sign of the dividend. *)
Definition num_rem (a : number) (d : Z) : number :=
  option_map (fun x => Z.rem x d) a.
(** [Math.floor] of a number that is an integer already. *)
Definition floor (a : number) : number := a.

Definition string_of_Z (z : Z) : string := NilEmpty.string_of_int (Z.to_int z).

(** [n.toString()], also the conversion a template literal applies. *)
Definition toString (a : number) : string :=
  match a with Some z => string_of_Z z | None => "NaN" end.

Fixpoint repeat_fill (fill : ascii) (n : nat) : string :=
  match n with 0 => "" | S n' => String fill (repeat_fill fill n') end.

(** [s.padStart(n, fill)] for a one-character [fill]. *)
Definition padStart (n : nat) (fill : ascii) (s : string) : string :=
  repeat_fill fill (n - String.length s) ++ s.

(** [x || d] for a text that may be absent: the empty text is falsy too. *)
Definition or_default (x : option string) (d : string) : string :=
  match x with
  | Some (String _ _ as t) => t
  | _ => d
  end.

Inductive error_class : Type := Error | TypeError | SyntaxError | NotFoundError.

Record js_error : Type := { name : error_class; message : string }.

(** [new Error(m)] *)
Definition new_Error (m : string) : js_error := {| name := Error; message := m |}.

Definition hex_digit (n : N) : ascii :=
  match String.get (N.to_nat n) "0123456789ABCDEF" with
  | Some c => c
  | None => "0"%char
  end.

Definition percent (byte : N) : list ascii :=
  ["%"%char; hex_digit (byte / 16); hex_digit (byte mod 16)].

Definition uri_unreserved (c : ascii) : bool :=
  in_range 97 122 c || in_range 65 90 c || in_range 48 57 c
  || existsb (fun u => (code u =? code c)%N) (chars "-_.!~*'()").

(** [encodeURIComponent]: a code unit from U+0080 to U+00FF is two UTF-8
    bytes. *)
Definition encode_unit (c : ascii) : list ascii :=
  if uri_unreserved c then [c]
  else if (code c <? 128)%N then percent (code c)
  else percent (192 + code c / 64) ++ percent (128 + code c mod 64).

Definition encodeURIComponent (s : string) : string :=
  text (flat_map encode_unit (chars s)).

(* ===================================================================== *)
(** ** The info endpoint as the script sees it *)
(* ===================================================================== *)

(** The parsed body of [GET /api/info] when it is an object: its fields
    may be absent, and the text fields are texts when present. *)
Record json : Type := {
  j_title : option string;
  j_channel : option string;
  j_duration : value;
  j_thumbnail : option string;
  j_error : option string
}.

(** An object without any of the fields that the script reads. *)
Definition no_fields : json :=
  {| j_title := None; j_channel := None; j_duration := JUndefined;
     j_thumbnail := None; j_error := None |}.

(** The value a body parses to, as far as the script can tell values
    apart: an object; [null], of which no property can be read; or a falsy
    primitive ([false], [0] or the empty text), whose properties are all
    [undefined].  A truthy primitive or an array is read like the object
    [no_fields]. *)
Inductive parsed : Type :=
| Object (data : json)
| Null
| Falsy.

(** What [response.json()] meets: a body that does not parse (with the
    parser's message) or the value it parses to. *)
Inductive payload : Type :=
| Malformed (why : string)
| Parsed (v : parsed).

Record response : Type := { ok : bool; body : payload }.

(** How a [fetch] settles: rejected (network failure) or a response. *)
Inductive fetch_outcome : Type :=
| Unreachable (why : string)
| Responded (r : response).

(** What the download endpoint does with the frame's request; the script
    has no handle on it. *)
Inductive download_outcome : Type :=
| FileSent
| HttpFailure (status_code : Z)
| ConnectionLost.

(* ===================================================================== *)
(** ** The page, the timers and the trace *)
(* ===================================================================== *)

(** [urlInput]: its value, [disabled], and whether its class list holds
    [input-group__input--error]. *)
Record input_el : Type :=
  { in_value : string; in_disabled : bool; in_error : bool }.

(** [downloadBtn]: [disabled] and the class [btn--loading]. *)
Record button_el : Type := { btn_disabled : bool; btn_loading : bool }.

(** [songInfo] with its thumbnail, title, channel and duration children. *)
Record song_el : Type := {
  song_hidden : bool;
  thumb_src : string;
  song_title : string;
  song_tooltip : string;
  song_channel : string;
  song_duration : string
}.

Record status_el : Type := {
  status_hidden : bool;
  status_class : string;
  status_title : string;
  status_message : string
}.

Record progress_el : Type := {
  progress_hidden : bool;
  progress_stage : string;
  progress_percent : string;
  progress_fill : string
}.

(** [inputError]: its text and the class [visible]. *)
Record error_el : Type := { error_text : string; error_visible : bool }.

(** A hidden frame appended to [document.body]. *)
Record frame : Type := {
  frame_id : nat;
  frame_src : string;
  frame_display : string;
  frame_load : download_outcome
}.

(** The closures the script hands to [setTimeout]. *)
Inductive callback : Type :=
| cb_success                       (* showSuccess(...); hideProgress() *)
| cb_reset                         (* resetForm() *)
| cb_remove_if_attached (f : nat)  (* if (iframe.parentNode) removeChild *)
| cb_remove (f : nat).             (* removeChild *)

(** What an observer of the page and of the network sees, in order. *)
Inductive action : Type :=
| Fetch (url : string)
| Wait (ms : Z)
| Progress (stage : string) (percent : Z)
| Status (kind title message : string)
| ConsoleLog (line : string)
| ConsoleError (line : string) (e : js_error).

Record state : Type := {
  isProcessing : bool;
  urlInput : input_el;
  downloadBtn : button_el;
  songInfo : song_el;
  status : status_el;
  progress : progress_el;
  inputHint_display : string;
  inputError : error_el;
  body_frames : list frame;
  frames_created : nat;
  now : Z;
  timers : list (Z * callback);
  trace : list action
}.

Definition set_isProcessing (v : bool) (s : state) : state :=
  {| isProcessing := v; urlInput := urlInput s; downloadBtn := downloadBtn s;
     songInfo := songInfo s; status := status s; progress := progress s;
     inputHint_display := inputHint_display s; inputError := inputError s;
     body_frames := body_frames s; frames_created := frames_created s;
     now := now s; timers := timers s; trace := trace s |}.

Definition set_urlInput (v : input_el) (s : state) : state :=
  {| isProcessing := isProcessing s; urlInput := v;
     downloadBtn := downloadBtn s; songInfo := songInfo s;
     status := status s; progress := progress s;
     inputHint_display := inputHint_display s; inputError := inputError s;
     body_frames := body_frames s; frames_created := frames_created s;
     now := now s; timers := timers s; trace := trace s |}.

Definition set_downloadBtn (v : button_el) (s : state) : state :=
  {| isProcessing := isProcessing s; urlInput := urlInput s;
     downloadBtn := v; songInfo := songInfo s; status := status s;
     progress := progress s; inputHint_display := inputHint_display s;
     inputError := inputError s; body_frames := body_frames s;
     frames_created := frames_created s; now := now s; timers := timers s;
     trace := trace s |}.

Definition set_songInfo (v : song_el) (s : state) : state :=
  {| isProcessing := isProcessing s; urlInput := urlInput s;
     downloadBtn := downloadBtn s; songInfo := v; status := status s;
     progress := progress s; inputHint_display := inputHint_display s;
     inputError := inputError s; body_frames := body_frames s;
     frames_created := frames_created s; now := now s; timers := timers s;
     trace := trace s |}.

Definition set_status (v : status_el) (s : state) : state :=
  {| isProcessing := isProcessing s; urlInput := urlInput s;
     downloadBtn := downloadBtn s; songInfo := songInfo s; status := v;
     progress := progress s; inputHint_display := inputHint_display s;
     inputError := inputError s; body_frames := body_frames s;
     frames_created := frames_created s; now := now s; timers := timers s;
     trace := trace s |}.

Definition set_progress (v : progress_el) (s : state) : state :=
  {| isProcessing := isProcessing s; urlInput := urlInput s;
     downloadBtn := downloadBtn s; songInfo := songInfo s;
     status := status s; progress := v;
     inputHint_display := inputHint_display s; inputError := inputError s;
     body_frames := body_frames s; frames_created := frames_created s;
     now := now s; timers := timers s; trace := trace s |}.

Definition set_inputHint_display (v : string) (s : state) : state :=
  {| isProcessing := isProcessing s; urlInput := urlInput s;
     downloadBtn := downloadBtn s; songInfo := songInfo s;
     status := status s; progress := progress s; inputHint_display := v;
     inputError := inputError s; body_frames := body_frames s;
     frames_created := frames_created s; now := now s; timers := timers s;
     trace := trace s |}.

Definition set_inputError (v : error_el) (s : state) : state :=
  {| isProcessing := isProcessing s; urlInput := urlInput s;
     downloadBtn := downloadBtn s; songInfo := songInfo s;
     status := status s; progress := progress s;
     inputHint_display := inputHint_display s; inputError := v;
     body_frames := body_frames s; frames_created := frames_created s;
     now := now s; timers := timers s; trace := trace s |}.

Definition set_body_frames (v : list frame) (s : state) : state :=
  {| isProcessing := isProcessing s; urlInput := urlInput s;
     downloadBtn := downloadBtn s; songInfo := songInfo s;
     status := status s; progress := progress s;
     inputHint_display := inputHint_display s; inputError := inputError s;
     body_frames := v; frames_created := frames_created s; now := now s;
     timers := timers s; trace := trace s |}.

Definition set_frames_created (v : nat) (s : state) : state :=
  {| isProcessing := isProcessing s; urlInput := urlInput s;
     downloadBtn := downloadBtn s; songInfo := songInfo s;
     status := status s; progress := progress s;
     inputHint_display := inputHint_display s; inputError := inputError s;
     body_frames := body_frames s; frames_created := v; now := now s;
     timers := timers s; trace := trace s |}.

Definition set_now (v : Z) (s : state) : state :=
  {| isProcessing := isProcessing s; urlInput := urlInput s;
     downloadBtn := downloadBtn s; songInfo := songInfo s;
     status := status s; progress := progress s;
     inputHint_display := inputHint_display s; inputError := inputError s;
     body_frames := body_frames s; frames_created := frames_created s;
     now := v; timers := timers s; trace := trace s |}.

Definition set_timers (v : list (Z * callback)) (s : state) : state :=
  {| isProcessing := isProcessing s; urlInput := urlInput s;
     downloadBtn := downloadBtn s; songInfo := songInfo s;
     status := status s; progress := progress s;
     inputHint_display := inputHint_display s; inputError := inputError s;
     body_frames := body_frames s; frames_created := frames_created s;
     now := now s; timers := v; trace := trace s |}.

Definition set_trace (v : list action) (s : state) : state :=
  {| isProcessing := isProcessing s; urlInput := urlInput s;
     downloadBtn := downloadBtn s; songInfo := songInfo s;
     status := status s; progress := progress s;
     inputHint_display := inputHint_display s; inputError := inputError s;
     body_frames := body_frames s; frames_created := frames_created s;
     now := now s; timers := timers s; trace := v |}.

(** The requests that the script has issued through [fetch] so far.  What
    the browser loads because a frame or an image is given an address is
    on the page, in [frame_src] and [thumb_src]. *)
Fixpoint requests (t : list action) : list string :=
  match t with
  | Fetch u :: t' => u :: requests t'
  | _ :: t' => requests t'
  | [] => []
  end.

Definition emit (a : action) (s : state) : state :=
  set_trace (trace s ++ [a]) s.

(* ===================================================================== *)
(** ** Computations that may throw *)
(* ===================================================================== *)

Inductive result (A : Type) : Type :=
| Ok (a : A)
| Throw (e : js_error).
Arguments Ok {A} a.
Arguments Throw {A} e.

Definition M (A : Type) : Type := state -> result A * state.

Definition ret {A} (a : A) : M A := fun s => (Ok a, s).
Definition throw {A} (e : js_error) : M A := fun s => (Throw e, s).
Definition bind {A B} (m : M A) (k : A -> M B) : M B :=
  fun s => match m s with
           | (Ok a, s') => k a s'
           | (Throw e, s') => (Throw e, s')
           end.
(** A function of the script that only updates the page. *)
Definition act (f : state -> state) : M unit := fun s => (Ok tt, f s).

(** [try { body } catch (e) { handler }] *)
Definition try_catch {A} (body : M A) (handler : js_error -> M A) : M A :=
  fun s => match body s with
           | (Ok a, s') => (Ok a, s')
           | (Throw e, s') => handler e s'
           end.

(** [try { body } finally { cleanup }] for a cleanup that does not throw. *)
Definition try_finally {A} (body : M A) (cleanup : state -> state) : M A :=
  fun s => match body s with (r, s') => (r, cleanup s') end.

Declare Scope js_scope.
Delimit Scope js_scope with js.
Notation "x <- m ;; k" := (bind m (fun x => k))
  (at level 61, m at next level, right associativity) : js_scope.
Notation "m ;; k" := (bind m (fun _ => k))
  (at level 61, right associativity) : js_scope.
Local Open Scope js_scope.

(** [setTimeout(cb, ms)] *)
Definition setTimeout (cb : callback) (ms : Z) (s : state) : state :=
  set_timers (timers s ++ [((now s + ms)%Z, cb)]) s.

(** The running function is suspended for [ms] milliseconds.  Callbacks
    that are pending when the suspension begins are not run here, and no
    event of the user is served: what is stated below of the trace and of
    the end of an attempt is stated for attempts that begin with no timer
    pending, where none can fall due before the attempt is over. *)
Definition wait (ms : Z) (s : state) : state :=
  emit (Wait ms) (set_now (now s + ms)%Z s).

(* ===================================================================== *)
(** ** State management and UI updates (the same in both variants) *)
(* ===================================================================== *)

Definition setProcessingState (processing : bool) (s : state) : state :=
  let s := set_isProcessing processing s in
  let s := set_urlInput
             {| in_value := in_value (urlInput s);
                in_disabled := processing;
                in_error := in_error (urlInput s) |} s in
  set_downloadBtn {| btn_disabled := processing; btn_loading := processing |} s.

Definition showProgress (stage : string) (percent : Z) (s : state) : state :=
  emit (Progress stage percent)
    (set_progress
       {| progress_hidden := false;
          progress_stage := stage;
          progress_percent := string_of_Z percent ++ "%";
          progress_fill := string_of_Z percent ++ "%" |} s).

Definition hideProgress (s : state) : state :=
  set_progress
    {| progress_hidden := true;
       progress_stage := progress_stage (progress s);
       progress_percent := progress_percent (progress s);
       progress_fill := "0%" |} s.

(** [formatDuration(seconds)] *)
Definition formatDuration (seconds : value) : string :=
  if negb (truthy seconds) || num_le (to_number seconds) (Some 0%Z) then "0:00"
  else
    let hours := floor_div (to_number seconds) 3600 in
    let mins := floor_div (num_rem (to_number seconds) 3600) 60 in
    let secs := floor (num_rem (to_number seconds) 60) in
    if num_gt hours (Some 0%Z)
    then toString hours ++ ":" ++ padStart 2 "0" (toString mins)
         ++ ":" ++ padStart 2 "0" (toString secs)
    else toString mins ++ ":" ++ padStart 2 "0" (toString secs).

(** [showSongInfo(info)]; the [onerror] and [onload] handlers it installs on
    the thumbnail only toggle the display of the image. *)
Definition showSongInfo (info : json) (s : state) : state :=
  set_songInfo
    {| song_hidden := false;
       thumb_src := or_default (j_thumbnail info) "";
       song_title := or_default (j_title info) "Unknown";
       song_tooltip := or_default (j_title info) "";
       song_channel := or_default (j_channel info) "Unknown";
       song_duration := formatDuration (j_duration info) |} s.

Definition hideSongInfo (s : state) : state :=
  set_songInfo
    {| song_hidden := true;
       thumb_src := thumb_src (songInfo s);
       song_title := song_title (songInfo s);
       song_tooltip := song_tooltip (songInfo s);
       song_channel := song_channel (songInfo s);
       song_duration := song_duration (songInfo s) |} s.

Definition showStatus (type title message : string) (s : state) : state :=
  emit (Status type title message)
    (set_status
       {| status_hidden := false;
          status_class := "status status--" ++ type;
          status_title := title;
          status_message := or_default (Some message) "" |} s).

Definition hideStatus (s : state) : state :=
  set_status
    {| status_hidden := true;
       status_class := status_class (status s);
       status_title := status_title (status s);
       status_message := status_message (status s) |} s.

Definition showSuccess (title message : string) : state -> state :=
  showStatus "success" title message.
Definition showError (title message : string) : state -> state :=
  showStatus "error" title message.
Definition showInfo (title message : string) : state -> state :=
  showStatus "info" title message.

Definition showInputError (message : string) (s : state) : state :=
  let s := set_urlInput
             {| in_value := in_value (urlInput s);
                in_disabled := in_disabled (urlInput s);
                in_error := true |} s in
  let s := set_inputError {| error_text := message; error_visible := true |} s in
  set_inputHint_display "none" s.

Definition clearInputError (s : state) : state :=
  let s := set_urlInput
             {| in_value := in_value (urlInput s);
                in_disabled := in_disabled (urlInput s);
                in_error := false |} s in
  let s := set_inputError
             {| error_text := error_text (inputError s);
                error_visible := false |} s in
  set_inputHint_display "" s.

Definition resetForm (s : state) : state :=
  clearInputError (hideSongInfo (hideProgress (hideStatus s))).

Definition double_quote : ascii := ascii_of_nat 34.

(** The bracket class of [sanitizeFilename]: the nine characters that a
    file name may not hold (less-than, greater-than, colon, double quote,
    slash, backslash, bar, question mark, star) and U+0000..U+001F. *)
Definition forbidden (c : ascii) : bool :=
  existsb (fun f => (code f =? code c)%N)
          ["<"; ">"; ":"; double_quote; "/"; "\"; "|"; "?"; "*"]%char
  || in_range 0 31 c.

(** [.replace(/\s+/g, ' ')]: each maximal run of white space becomes one
    space. *)
Fixpoint collapse (s : list ascii) : list ascii :=
  match s with
  | [] => []
  | c :: s' =>
      if is_space c
      then " "%char :: match s' with
                       | d :: _ => if is_space d then tl (collapse s')
                                   else collapse s'
                       | [] => []
                       end
      else c :: collapse s'
  end.

(** [sanitizeFilename(title)]; [None] is [null] or [undefined]. *)
Definition sanitizeFilename (title : option string) : string :=
  match title with
  | None | Some "" => "download"
  | Some t =>
      or_default
        (Some (text (trimEnd (trimStart
           (substring0 100
              (collapse (filter (fun c => negb (forbidden c)) (chars t))))))))
        "download"
  end.

(* ===================================================================== *)
(** ** Frames and timer callbacks *)
(* ===================================================================== *)

Definition attached (f : nat) (s : state) : bool :=
  existsb (fun fr => frame_id fr =? f)%nat (body_frames s).

(** [document.body.removeChild(iframe)] *)
Definition removeChild (f : nat) : M unit :=
  fun s =>
    if attached f s
    then (Ok tt,
          set_body_frames
            (filter (fun fr => negb (frame_id fr =? f)%nat) (body_frames s)) s)
    else (Throw {| name := NotFoundError;
                   message := "The node to be removed is not a child of this node." |},
          s).

Definition fire (cb : callback) : M unit :=
  match cb with
  | cb_success =>
      act (showSuccess "Download started!" "Check your browser downloads.") ;;
      act hideProgress
  | cb_reset => act resetForm
  | cb_remove_if_attached f =>
      fun s => if attached f s then removeChild f s else (Ok tt, s)
  | cb_remove f => removeChild f
  end.

(** The pending timer that fires next: the earliest due, the first
    registered among equals. *)
Fixpoint earliest (ts : list (Z * callback)) : option (Z * callback) :=
  match ts with
  | [] => None
  | t :: ts' =>
      match earliest ts' with
      | Some u => if (fst u <? fst t)%Z then Some u else Some t
      | None => Some t
      end
  end.

Fixpoint drop_timer (due : Z) (ts : list (Z * callback)) : list (Z * callback) :=
  match ts with
  | [] => []
  | t :: ts' => if (fst t =? due)%Z then ts' else t :: drop_timer due ts'
  end.

(** One turn of the event loop on the timer queue; an exception of a
    callback is reported and the page goes on. *)
Definition tick (s : state) : option state :=
  match earliest (timers s) with
  | None => None
  | Some (due, cb) =>
      let s := set_timers (drop_timer due (timers s)) s in
      let s := set_now (Z.max (now s) due) s in
      Some (snd (fire cb s))
  end.

(* ===================================================================== *)
(** ** Event handlers (the same text in both variants) *)
(* ===================================================================== *)

Section Handlers.
Variable validateUrl : string -> bool.
Variable startDownload : string -> M unit.

(** [handleSubmit(e)], by the [validateUrl] and the [startDownload] of the
    variant.  The call of [startDownload] is not awaited; its steps are
    taken up to the end of the attempt.  The input, paste and clear
    handlers touch neither the processing flag nor the network. *)
Definition handleSubmit_of (s : state) : state :=
  if isProcessing s then s
  else
    let url := trim (in_value (urlInput s)) in
    match url with
    | "" => showInputError "Please enter a YouTube link" s
    | _ =>
        if negb (validateUrl url)
        then showInputError "Please enter a valid YouTube link" s
        else snd (startDownload url s)
    end.
End Handlers.

(* ===================================================================== *)
(** ** static/js/app.js: the retrying variant *)
(* ===================================================================== *)

Module App.

(** [YOUTUBE_PATTERNS], each literal with the [i] flag. *)
Definition YOUTUBE_PATTERNS : list node :=
  [ lit "youtube.com/watch";
    lit "youtu.be/";
    lit "youtube.com/shorts/";
    lit "youtube.com/embed/";
    lit "youtube.com/v/";
    lit "music.youtube.com" ].

Definition validateUrl (url : string) : bool :=
  existsb (fun pattern => test true pattern url) YOUTUBE_PATTERNS.

Section Network.
(** How the [n]-th request of the page to the info endpoint settles, and
    what the download endpoint does with a frame's request. *)
Variable net : nat -> fetch_outcome.
Variable endpoint : string -> download_outcome.

(** [await fetch(url)] *)
Definition fetch (url : string) : M response :=
  fun s =>
    let s' := emit (Fetch url) s in
    match net (List.length (requests (trace s))) with
    | Unreachable why =>
        (Throw {| name := TypeError; message := why |}, s')
    | Responded r => (Ok r, s')
    end.

(** [await response.json()] *)
Definition response_json (r : response) : M parsed :=
  match body r with
  | Malformed why => throw {| name := SyntaxError; message := why |}
  | Parsed v => ret v
  end.

(** The first read of a property of [v], here [v.field]: the object whose
    fields this read and the later ones go to, or the [TypeError] of a
    read on [null] (with the wording of V8). *)
Definition property (field : string) (v : parsed) : M json :=
  match v with
  | Object data => ret data
  | Falsy => ret no_fields
  | Null =>
      throw {| name := TypeError;
               message := "Cannot read properties of null (reading '"
                          ++ field ++ "')" |}
  end.

Definition fetchVideoInfo (url : string) : M parsed :=
  response <- fetch ("/api/info?url=" ++ encodeURIComponent url) ;;
  data <- try_catch (response_json response)
            (fun e => throw (new_Error "Server error. Please try again.")) ;;
  if negb (ok response)
  then (fields <- property "error" data ;;
        throw (new_Error (or_default (j_error fields)
                            "Failed to fetch video info")))
  else ret data.

(** [await sleep(ms)] *)
Definition sleep (ms : Z) : state -> state := wait ms.

Definition triggerDownload (url : string) (title : option string) : M unit :=
  let downloadUrl := "/api/download?url=" ++ encodeURIComponent url in
  fun s =>
    let iframe := frames_created s in
    let s := set_frames_created (S iframe) s in
    let s := set_body_frames
               (body_frames s ++
                  [{| frame_id := iframe;
                      frame_src := downloadUrl;
                      frame_display := "none";
                      frame_load := endpoint downloadUrl |}]) s in
    (* the promise resolves from the 1500 ms timer, whose callback
       first registers the clean-up of the frame *)
    let s := wait 1500 s in
    let s := setTimeout (cb_remove_if_attached iframe) 120000 s in
    (Ok tt, s).

(** The [while (retries >= 0)] loop of [startDownload], from the state
    of its three variables to their state at the exit. *)
Equations? fetch_with_retry (url : string) (retries : Z)
    (info : option parsed) (lastError : option js_error) (s : state)
    : (option parsed * option js_error) * state
    by wf (Z.to_nat (retries + 1)) lt :=
  fetch_with_retry url retries info lastError s
    with Z_le_gt_dec 0 retries := {
    | right _ => ((info, lastError), s)
    | left _ with fetchVideoInfo url s := {
      | (Ok data, s1) => ((Some data, lastError), s1)
      | (Throw err, s1) =>
          let retries' := (retries - 1)%Z in
          fetch_with_retry url retries' info (Some err)
            (if (0 <=? retries')%Z
             then sleep 1000
                    (showProgress "Retrying..." 10
                       (emit (ConsoleLog
                                ("Retry attempt, "
                                 ++ string_of_Z (retries' + 1) ++ " left..."))
                             s1))
             else s1) } }.
Proof. lia. Qed.

Definition startDownload (url : string) : M unit :=
  act (setProcessingState true) ;;
  act hideStatus ;;
  act hideSongInfo ;;
  act (showProgress "Fetching video info..." 5) ;;
  try_finally
    (try_catch
       (fun s =>
          let '((info, lastError), s) := fetch_with_retry url 2 None None s in
          (info <- match info with
                   | Some (Object info) => ret info
                   | Some Null | Some Falsy | None =>
                       (* if (!info) *)
                       throw (match lastError with
                              | Some e => e
                              | None => new_Error "Could not get video info"
                              end)
                   end ;;
           act (showSongInfo info) ;;
           act (showProgress "Preparing download..." 30) ;;
           (if num_gt (to_number (j_duration info)) (Some 900%Z)
            then act (showInfo "Long video detected"
                        ("This video is " ++ formatDuration (j_duration info)
                         ++ ". Download may take a few minutes."))
            else ret tt) ;;
           act (showProgress "Downloading..." 60) ;;
           triggerDownload url (j_title info) ;;
           act (showProgress "Complete!" 100) ;;
           act (setTimeout cb_success 500) ;;
           act (setTimeout cb_reset 4000)) s)
       (fun error =>
          act (emit (ConsoleError "Download error:" error)) ;;
          act (showError "Download failed"
                 (or_default (Some (message error)) "Please try again.")) ;;
          act hideProgress ;;
          act hideSongInfo))
    (setProcessingState false).

Definition handleSubmit : state -> state :=
  handleSubmit_of validateUrl startDownload.
End Network.
End App.

(* ===================================================================== *)
(** ** The second copy of the script: the single-attempt variant *)
(* ===================================================================== *)

Module Single.

(** [YOUTUBE_PATTERN], with the [i] flag. *)
Definition YOUTUBE_PATTERN : node :=
  Seq Bol
 (Seq (Opt (Seq (lit "http") (Seq (Opt (Char "s")) (lit "://"))))
 (Seq (Opt (lit "www."))
 (Seq (Alt (lit "youtube.com/watch?v=")
      (Alt (lit "youtu.be/")
      (Alt (lit "youtube.com/shorts/")
      (Alt (lit "youtube.com/embed/")
           (lit "music.youtube.com/watch?v=")))))
      (Plus (Class (fun c => word_char c || (code c =? 45)%N)))))).

Definition validateUrl (url : string) : bool := test true YOUTUBE_PATTERN url.

Section Network.
Variable net : nat -> fetch_outcome.
Variable endpoint : string -> download_outcome.

(** No guard around [response.json()] here: its exception leaves the
    function as it is. *)
Definition fetchVideoInfo (url : string) : M parsed :=
  response <- App.fetch net ("/api/info?url=" ++ encodeURIComponent url) ;;
  data <- App.response_json response ;;
  if negb (ok response)
  then (fields <- App.property "error" data ;;
        throw (new_Error (or_default (j_error fields)
                            "Failed to fetch video info")))
  else ret data.

Definition triggerDownload (url : string) (title : option string) : M unit :=
  let downloadUrl := "/api/download?url=" ++ encodeURIComponent url in
  fun s =>
    let iframe := frames_created s in
    let s := set_frames_created (S iframe) s in
    let s := set_body_frames
               (body_frames s ++
                  [{| frame_id := iframe;
                      frame_src := downloadUrl;
                      frame_display := "none";
                      frame_load := endpoint downloadUrl |}]) s in
    let s := wait 1000 s in
    let s := setTimeout (cb_remove iframe) 60000 s in
    (Ok tt, s).

Definition startDownload (url : string) : M unit :=
  act (setProcessingState true) ;;
  act hideStatus ;;
  act hideSongInfo ;;
  act (showProgress "Fetching video info..." 5) ;;
  try_finally
    (try_catch
       (info <- fetchVideoInfo url ;;
        (* the first read of showSongInfo(info) is info.thumbnail *)
        info <- App.property "thumbnail" info ;;
        act (showSongInfo info) ;;
        act (showProgress "Preparing download..." 30) ;;
        (if num_gt (to_number (j_duration info)) (Some 900%Z)
         then act (showInfo "Long video detected"
                     ("This video is " ++ formatDuration (j_duration info)
                      ++ ". Download may take a few minutes."))
         else ret tt) ;;
        act (showProgress "Downloading..." 60) ;;
        triggerDownload url (j_title info) ;;
        act (showProgress "Complete!" 100) ;;
        act (setTimeout cb_success 500) ;;
        act (setTimeout cb_reset 4000))
       (fun error =>
          act (showError "Download failed"
                 (or_default (Some (message error)) "Please try again.")) ;;
          act hideProgress ;;
          act hideSongInfo))
    (setProcessingState false).

Definition handleSubmit : state -> state :=
  handleSubmit_of validateUrl startDownload.
End Network.
End Single.

(* ===================================================================== *)
(** ** What the specification says of [validate] *)
(* ===================================================================== *)

(** ASCII lower case: how the text is read when case does not count. *)
Definition lower (c : ascii) : ascii :=
  if in_range 65 90 c then ascii_of_N (code c + 32) else c.

Definition lower_case (s : list ascii) : list ascii := map lower s.

(** [shape] occurs somewhere in [s]. *)
Definition occurs_in (shape : string) (s : list ascii) : Prop :=
  exists pre post, s = (pre ++ chars shape ++ post)%list.

(** The shapes the specification lists: watch, shorts, embed, the
    [youtu.be] short link and the music subdomain. *)
Definition listed_shapes : list string :=
  [ "youtube.com/watch"; "youtube.com/shorts/"; "youtube.com/embed/";
    "youtu.be/"; "music.youtube.com" ].

(** The specification's [validate], read as leniently as its words allow:
    one of the listed shapes occurs in the text, whatever the case and
    whatever stands before it. *)
Definition listed_shape_occurs (url : string) : Prop :=
  exists shape, In shape listed_shapes
                /\ occurs_in shape (lower_case (chars url)).

(** The shapes of [YOUTUBE_PATTERNS]. *)
Definition app_shapes : list string :=
  [ "youtube.com/watch"; "youtu.be/"; "youtube.com/shorts/";
    "youtube.com/embed/"; "youtube.com/v/"; "music.youtube.com" ].

(** The alternatives of [YOUTUBE_PATTERN], each followed by an identifier. *)
Definition single_shapes : list string :=
  [ "youtube.com/watch?v="; "youtu.be/"; "youtube.com/shorts/";
    "youtube.com/embed/"; "music.youtube.com/watch?v=" ].

(** A character of a video identifier: [[\w-]]. *)
Definition id_char (c : ascii) : bool := word_char c || (code c =? 45)%N.

(** Pattern characters that stand for themselves when case is ignored:
    ASCII and not an upper-case letter. *)
Definition plain (c : ascii) : bool :=
  (code c <? 128)%N && negb (in_range 65 90 c).

(** A continuation that accepts a rest of the input by its lower-case form
    alone. *)
Definition accepts (k : position -> bool) (P : list ascii -> Prop) : Prop :=
  forall i s, k (i, s) = true <-> P (lower_case s).

(** What [YOUTUBE_PATTERN] asks of the lower-case text, stage by stage: an
    identifier character; before it one of the shapes; before that an
    optional [www.]; before that an optional scheme. *)
Definition has_id (t : list ascii) : Prop :=
  exists c rest, t = c :: rest /\ id_char c = true.

Definition has_shape (t : list ascii) : Prop :=
  exists shape t', In shape single_shapes
                   /\ t = (chars shape ++ t')%list /\ has_id t'.

Definition has_www (t : list ascii) : Prop :=
  exists www t', In www [""; "www."]
                 /\ t = (chars www ++ t')%list /\ has_shape t'.

Definition has_scheme (t : list ascii) : Prop :=
  exists scheme t', In scheme [""; "http://"; "https://"]
                    /\ t = (chars scheme ++ t')%list /\ has_www t'.

(* ===================================================================== *)
(** ** Vocabulary of the statements about the controller *)
(* ===================================================================== *)

(** Two states agree on everything but the inline input error, which is
    the error class of the input, the error text with its visibility and
    the hint it replaces. *)
Definition same_but_input_error (s s' : state) : Prop :=
  isProcessing s' = isProcessing s
  /\ in_value (urlInput s') = in_value (urlInput s)
  /\ in_disabled (urlInput s') = in_disabled (urlInput s)
  /\ downloadBtn s' = downloadBtn s
  /\ songInfo s' = songInfo s
  /\ status s' = status s
  /\ progress s' = progress s
  /\ body_frames s' = body_frames s
  /\ frames_created s' = frames_created s
  /\ now s' = now s
  /\ timers s' = timers s
  /\ trace s' = trace s.

(** The request of [fetchVideoInfo(url)]. *)
Definition info_request (url : string) : string :=
  "/api/info?url=" ++ encodeURIComponent url.

(** What [fetchVideoInfo] of [static/js/app.js] makes of the way its
    request settles. *)
Definition null_read (field : string) : js_error :=
  {| name := TypeError;
     message := "Cannot read properties of null (reading '" ++ field ++ "')" |}.

Definition info_outcome (o : fetch_outcome) : result parsed :=
  match o with
  | Unreachable why => Throw {| name := TypeError; message := why |}
  | Responded {| ok := _; body := Malformed _ |} =>
      Throw (new_Error "Server error. Please try again.")
  | Responded {| ok := false; body := Parsed (Object data) |} =>
      Throw (new_Error (or_default (j_error data) "Failed to fetch video info"))
  | Responded {| ok := false; body := Parsed Falsy |} =>
      Throw (new_Error "Failed to fetch video info")
  | Responded {| ok := false; body := Parsed Null |} => Throw (null_read "error")
  | Responded {| ok := true; body := Parsed v |} => Ok v
  end.

(** [info] when [!info] is false: the object that the attempt goes on
    with. *)
Definition usable (info : option parsed) : option json :=
  match info with
  | Some (Object data) => Some data
  | _ => None
  end.


(** The message of the error status for a caught error. *)
Definition surfaced (e : js_error) : string :=
  or_default (Some (message e)) "Please try again.".


(** The number of requests the page has issued. *)
Definition sent (s : state) : nat := List.length (requests (trace s)).

(** The steps of [startDownload] before its [try]. *)
Definition prelude (s : state) : state :=
  showProgress "Fetching video info..." 5
    (hideSongInfo (hideStatus (setProcessingState true s))).

(** The long-video check of [startDownload]. *)
Definition long_video_notice (info : json) (s : state) : state :=
  if num_gt (to_number (j_duration info)) (Some 900%Z)
  then showInfo "Long video detected"
         ("This video is " ++ formatDuration (j_duration info)
          ++ ". Download may take a few minutes.") s
  else s.

(** The state after the loop of [startDownload] has announced a retry and
    slept, [left] attempts being left. *)
Definition retrying (left : Z) (s : state) : state :=
  App.sleep 1000
    (showProgress "Retrying..." 10
       (emit (ConsoleLog ("Retry attempt, " ++ string_of_Z left ++ " left...")) s)).


(** A body of the info endpoint that only carries an error message. *)
Definition error_body (m : string) : json :=
  {| j_title := None; j_channel := None; j_duration := JUndefined;
     j_thumbnail := None; j_error := Some m |}.

(** The metadata of a song of [seconds] seconds. *)
Definition song (seconds : Z) : json :=
  {| j_title := Some "Song"; j_channel := Some "Channel";
     j_duration := JNum seconds; j_thumbnail := None; j_error := None |}.

(** An info endpoint that refuses every request with [m], and one that
    answers from the [n]-th request on. *)
Definition refusing (m : string) (n : nat) : fetch_outcome :=
  Responded {| ok := false; body := Parsed (Object (error_body m)) |}.

Definition answering_from (k : nat) (info : json) (n : nat) : fetch_outcome :=
  if (n <? k)%nat then Unreachable "Failed to fetch"
  else Responded {| ok := true; body := Parsed (Object info) |}.

Definition serving (url : string) : download_outcome := FileSent.

(** The user replaces the text of the input by [typed]. *)
Definition type_in (typed : string) (s : state) : state :=
  set_urlInput {| in_value := typed;
                  in_disabled := in_disabled (urlInput s);
                  in_error := in_error (urlInput s) |} s.

(** A file name in which white space only occurs as single blanks ... *)
Definition blank_separated (r : list ascii) : Prop :=
  (forall c, In c r -> is_space c = true -> c = " "%char)
  /\ (forall a c d b, r = (a ++ c :: d :: b)%list ->
                      is_space c = true -> is_space d = false).

(** ... and neither at its start nor at its end. *)
Definition trimmed (r : list ascii) : Prop :=
  (forall c t, r = c :: t -> is_space c = false)
  /\ (forall t c, r = (t ++ [c])%list -> is_space c = false).




(** White space occurs in [l] only as a blank followed by something else:
    the recursive form of [blank_separated]. *)
Fixpoint tidy (l : list ascii) : Prop :=
  match l with
  | [] => True
  | c :: l' =>
      (is_space c = true ->
       c = " "%char /\ match l' with
                      | d :: _ => is_space d = false
                      | [] => True
                      end)
      /\ tidy l'
  end.

(** A duration that the model displays as the script does: the script
    computes on doubles, which hold the whole numbers below 2^53 exactly. *)
Definition displayable (v : value) : Prop :=
  forall z, v = JNum z -> (z < 2 ^ 53)%Z.

(** The falsy and the non-positive durations. *)
Definition no_duration (v : value) : Prop :=
  v = JUndefined \/ v = JNull \/ v = JBool false \/ v = JNaN
  \/ exists z, v = JNum z /\ (z <= 0)%Z.

(** The page as it is loaded, with [typed] in the input. *)
Definition idle_page (typed : string) : state :=
  {| isProcessing := false;
     urlInput := {| in_value := typed; in_disabled := false; in_error := false |};
     downloadBtn := {| btn_disabled := false; btn_loading := false |};
     songInfo := {| song_hidden := true; thumb_src := ""; song_title := "";
                    song_tooltip := ""; song_channel := ""; song_duration := "" |};
     status := {| status_hidden := true; status_class := "status";
                  status_title := ""; status_message := "" |};
     progress := {| progress_hidden := true; progress_stage := "";
                    progress_percent := ""; progress_fill := "0%" |};
     inputHint_display := "";
     inputError := {| error_text := ""; error_visible := false |};
     body_frames := []; frames_created := 0; now := 0%Z; timers := [];
     trace := [] |}.

(* ===================================================================== *)
(** ** The rest of the page and its events *)
(* ===================================================================== *)

(** The page with what the attempt itself never touches: the clear button
    (its class [visible]), the focus of the input, and the due times of the
    callbacks that [handlePaste] has registered. *)
Record whole_page : Type := {
  core : state;
  clearBtn_visible : bool;
  urlInput_focused : bool;
  paste_timers : list Z
}.

Definition on_core (f : state -> state) (p : whole_page) : whole_page :=
  {| core := f (core p);
     clearBtn_visible := clearBtn_visible p;
     urlInput_focused := urlInput_focused p;
     paste_timers := paste_timers p |}.

(** [urlInput.focus()]: a disabled input does not take the focus. *)
Definition focus (p : whole_page) : whole_page :=
  {| core := core p;
     clearBtn_visible := clearBtn_visible p;
     urlInput_focused :=
       if in_disabled (urlInput (core p)) then urlInput_focused p else true;
     paste_timers := paste_timers p |}.

(** [handleInputChange()] *)
Definition handleInputChange (p : whole_page) : whole_page :=
  let value := in_value (urlInput (core p)) in
  let p := {| core := core p;
              clearBtn_visible := (0 <? String.length value)%nat;
              urlInput_focused := urlInput_focused p;
              paste_timers := paste_timers p |} in
  let p := on_core clearInputError p in
  if (0 <? String.length value)%nat then on_core hideStatus p else p.

(** [handlePaste(e)]: [handleInputChange] is deferred by 10 ms. *)
Definition handlePaste (p : whole_page) : whole_page :=
  {| core := core p;
     clearBtn_visible := clearBtn_visible p;
     urlInput_focused := urlInput_focused p;
     paste_timers := (paste_timers p ++ [(now (core p) + 10)%Z])%list |}.

(** [clearInput()] *)
Definition clearInput (p : whole_page) : whole_page :=
  let p := on_core (type_in "") p in
  let p := focus p in
  let p := {| core := core p;
              clearBtn_visible := false;
              urlInput_focused := urlInput_focused p;
              paste_timers := paste_timers p |} in
  on_core hideSongInfo (on_core clearInputError p).

(** [init()] on a window of the given inner width; the listeners it
    registers are the cases of [on] below. *)
Definition init (innerWidth : Z) (p : whole_page) : whole_page :=
  if (768 <? innerWidth)%Z then focus p else p.

(** One turn of the event loop on the timer queue of the attempts, with
    the result of the callback. *)
Definition turn (s : state) : option (result unit * state) :=
  match earliest (timers s) with
  | None => None
  | Some (due, cb) =>
      let s := set_timers (drop_timer due (timers s)) s in
      let s := set_now (Z.max (now s) due) s in
      Some (fire cb s)
  end.

(** What happens to the page.  An attempt runs to its end within the
    submission that starts it: the edits and the timers that a browser
    could serve between two of its awaits come before or after it here. *)
Inductive event : Type :=
| Submit                    (* the form is submitted *)
| Input (value : string)    (* the user edits the text, [value] being the result *)
| Paste                     (* the user pastes; the text changes with the
                               [Input] that follows *)
| ClickClear                (* the clear button is clicked *)
| Timer                     (* the next timer of an attempt fires *)
| PasteTimer.               (* the oldest callback of [handlePaste] fires *)

Section Events.
(** [handleSubmit] of the variant. *)
Variable handleSubmit : state -> state.

(** The listeners of [init] and the timer callbacks. *)
Definition on (e : event) (p : whole_page) : whole_page :=
  match e with
  | Submit => on_core handleSubmit p
  | Input value => handleInputChange (on_core (type_in value) p)
  | Paste => handlePaste p
  | ClickClear => clearInput p
  | Timer =>
      match tick (core p) with
      | Some s => on_core (fun _ => s) p
      | None => p
      end
  | PasteTimer =>
      match paste_timers p with
      | due :: rest =>
          handleInputChange
            {| core := set_now (Z.max (now (core p)) due) (core p);
               clearBtn_visible := clearBtn_visible p;
               urlInput_focused := urlInput_focused p;
               paste_timers := rest |}
      | [] => p
      end
  end.

(** The page after a sequence of events. *)
Definition after (es : list event) (p : whole_page) : whole_page :=
  fold_left (fun q e => on e q) es p.
End Events.

(* ===================================================================== *)
(** ** Vocabulary of the further statements *)
(* ===================================================================== *)


(** The frames that the pending timers are to remove. *)
Fixpoint removal_targets (ts : list (Z * callback)) : list nat :=
  match ts with
  | [] => []
  | (_, cb_remove f) :: ts' => f :: removal_targets ts'
  | (_, cb_remove_if_attached f) :: ts' => f :: removal_targets ts'
  | _ :: ts' => removal_targets ts'
  end.

(** Each frame to remove was created by an attempt, no frame is to be
    removed twice, and a frame that an unguarded callback is to remove is
    attached. *)
Definition removals_ok (s : state) : Prop :=
  (forall f, In f (removal_targets (timers s)) -> f < frames_created s)
  /\ NoDup (removal_targets (timers s))
  /\ (forall due f, In (due, cb_remove f) (timers s) -> attached f s = true).

(** A character that cannot end or split the value of a query parameter:
    unreserved, or the percent sign of an escape. *)
Definition query_safe (c : ascii) : bool :=
  uri_unreserved c || (code c =? 37)%N.

Definition hex_value (c : ascii) : option N :=
  if in_range 48 57 c then Some (code c - 48)%N
  else if in_range 65 70 c then Some (code c - 55)%N
  else None.

(** The reading of an escaped text back: what a server does with the query
    value ([None] when the text is no output of [encodeURIComponent] over
    code units below U+0100). *)
Fixpoint unescape (s : list ascii) : option (list ascii) :=
  match s with
  | [] => Some []
  | "%"%char :: a :: b :: s1 =>
      match hex_value a, hex_value b with
      | Some x, Some y =>
          let byte := (16 * x + y)%N in
          if (byte <? 128)%N
          then option_map (cons (ascii_of_N byte)) (unescape s1)
          else
            match s1 with
            | "%"%char :: c :: d :: s2 =>
                match hex_value c, hex_value d with
                | Some z, Some w =>
                    option_map
                      (cons (ascii_of_N (64 * (byte - 192) + (16 * z + w - 128))))
                      (unescape s2)
                | _, _ => None
                end
            | _ => None
            end
      | _, _ => None
      end
  | c :: s1 => option_map (cons c) (unescape s1)
  end.

(** A field of a displayed duration that is padded to two places, and the
    test that a text is two decimal digits. *)
Definition two_digits (n : Z) : string := padStart 2 "0" (string_of_Z n).

Definition two_decimal (f : string) : bool :=
  match f with
  | String a (String b "") => in_range 48 57 a && in_range 48 57 b
  | _ => false
  end.

(** An info endpoint whose bodies do not parse. *)
Definition garbling (why : string) (n : nat) : fetch_outcome :=
  Responded {| ok := true; body := Malformed why |}.

(** A page at load, before [init] runs, with [typed] in the input and the
    clear button in step with it. *)
Definition loaded_page (typed : string) : whole_page :=
  {| core := idle_page typed;
     clearBtn_visible := (0 <? String.length typed)%nat;
     urlInput_focused := false;
     paste_timers := [] |}.

(** What [fetchVideoInfo] of the second copy makes of the way its request
    settles ... *)
Definition single_fetched (o : fetch_outcome) : result parsed :=
  match o with
  | Unreachable why => Throw {| name := TypeError; message := why |}
  | Responded {| ok := _; body := Malformed why |} =>
      Throw {| name := SyntaxError; message := why |}
  | Responded {| ok := false; body := Parsed (Object data) |} =>
      Throw (new_Error (or_default (j_error data) "Failed to fetch video info"))
  | Responded {| ok := false; body := Parsed Falsy |} =>
      Throw (new_Error "Failed to fetch video info")
  | Responded {| ok := false; body := Parsed Null |} => Throw (null_read "error")
  | Responded {| ok := true; body := Parsed v |} => Ok v
  end.

(** ... and what its [startDownload] goes on with, once [showSongInfo] has
    read the first property of the value. *)
Definition single_outcome (o : fetch_outcome) : result json :=
  match single_fetched o with
  | Ok (Object data) => Ok data
  | Ok Falsy => Ok no_fields
  | Ok Null => Throw (null_read "thumbnail")
  | Throw e => Throw e
  end.

(** The address of the frame of [triggerDownload(url, title)]. *)
Definition download_request (url : string) : string :=
  "/api/download?url=" ++ encodeURIComponent url.

(** How an attempt that started on [s] can have left the page: failed, with
    an error status that says something, the progress and the song panel
    hidden, and neither a timer nor a frame more than before ... *)
Definition failed_end (s s' : state) : Prop :=
  status_hidden (status s') = false
  /\ status_class (status s') = "status status--error"
  /\ status_title (status s') = "Download failed"
  /\ status_message (status s') <> ""
  /\ progress_hidden (progress s') = true
  /\ song_hidden (songInfo s') = true
  /\ timers s' = timers s
  /\ body_frames s' = body_frames s
  /\ frames_created s' = frames_created s.

(** The song panel as [showSongInfo(info)] leaves it, the text of the
    duration being spelled out for the durations that the model displays
    as the script does. *)
Definition shows_song (info : json) (panel : song_el) : Prop :=
  song_hidden panel = false
  /\ thumb_src panel = or_default (j_thumbnail info) ""
  /\ song_title panel = or_default (j_title info) "Unknown"
  /\ song_tooltip panel = or_default (j_title info) ""
  /\ song_channel panel = or_default (j_channel info) "Unknown"
  /\ (displayable (j_duration info) ->
      song_duration panel = formatDuration (j_duration info)).


(** ... or done, with the song shown, the progress at 100%, no error status,
    one frame more and the three timers of the success path, the removal of
    the frame being due [removal] ms after the completion. *)
Definition succeeded_end (removal : Z) (remove : nat -> callback)
    (endpoint : string -> download_outcome) (url : string)
    (s s' : state) : Prop :=
  exists info,
    shows_song info (songInfo s')
    /\ progress s'
       = {| progress_hidden := false; progress_stage := "Complete!";
            progress_percent := "100%"; progress_fill := "100%" |}
    /\ (status_hidden (status s') = true
        \/ status_class (status s') = "status status--info")
    /\ timers s'
       = (timers s ++ [((now s' + removal)%Z, remove (frames_created s));
                       ((now s' + 500)%Z, cb_success);
                       ((now s' + 4000)%Z, cb_reset)])%list
    /\ body_frames s'
       = (body_frames s
          ++ [{| frame_id := frames_created s;
                 frame_src := download_request url;
                 frame_display := "none";
                 frame_load := endpoint (download_request url) |}])%list
    /\ frames_created s' = S (frames_created s).

(** The clear button shows exactly when the input holds text. *)
Definition clear_button_ok (p : whole_page) : Prop :=
  clearBtn_visible p = (0 <? String.length (in_value (urlInput (core p))))%nat.

(** The inline input error is shown as a whole (error class on the input,
    one of the two messages visible, hint hidden) or not at all. *)
Definition input_error_whole (s : state) : Prop :=
  (in_error (urlInput s) = true /\ error_visible (inputError s) = true
   /\ inputHint_display s = "none"
   /\ (error_text (inputError s) = "Please enter a YouTube link"
       \/ error_text (inputError s) = "Please enter a valid YouTube link"))
  \/ (in_error (urlInput s) = false /\ error_visible (inputError s) = false
      /\ inputHint_display s = "").

(** The status panel of [showSuccess('Download started!', ...)]. *)
Definition started_status : status_el :=
  {| status_hidden := false; status_class := "status status--success";
     status_title := "Download started!";
     status_message := "Check your browser downloads." |}.

(** How the event loop unwinds the timers of a finished attempt whose frame
    is [f]: three turns empty the queue.  The first shows the success status
    and hides the progress 500 ms after the completion, the second resets
    the panels 4000 ms after it and leaves the frame and the typed link
    alone, the third removes the frame [removal] ms after it. *)
Definition unwinds (removal : Z) (f : nat) (s' : state) : Prop :=
  exists s1 s2 s3,
    tick s' = Some s1 /\ tick s1 = Some s2 /\ tick s2 = Some s3
    /\ tick s3 = None
    /\ (now s1 = (now s' + 500)%Z
        /\ status s1 = started_status
        /\ progress_hidden (progress s1) = true)
    /\ (now s2 = (now s' + 4000)%Z
        /\ status_hidden (status s2) = true
        /\ song_hidden (songInfo s2) = true
        /\ progress_hidden (progress s2) = true
        /\ attached f s2 = true
        /\ in_value (urlInput s2) = in_value (urlInput s'))
    /\ (now s3 = (now s' + removal)%Z
        /\ attached f s3 = false
        /\ timers s3 = []
        /\ in_value (urlInput s3) = in_value (urlInput s')).

(* ===================================================================== *)
(** * Properties *)
(* ===================================================================== *)

Local Arguments String.append : simpl never.
Local Arguments string_of_Z : simpl never.
Local Arguments encodeURIComponent : simpl never.
Local Arguments formatDuration : simpl never.

(** ** The matcher on the literals of the script *)

Lemma code_units_complete (c : ascii) : In c code_units.
Proof.
  assert (H : existsb (Ascii.eqb c) code_units = true).
  { destruct c as [[] [] [] [] [] [] [] []]; vm_compute; reflexivity. }
  apply existsb_exists in H. destruct H as [x [Hin Heq]].
  apply Ascii.eqb_eq in Heq. subst. exact Hin.
Qed.

Lemma forall_code_units (P : ascii -> bool) :
  forallb P code_units = true -> forall c, P c = true.
Proof.
  intros H c. rewrite forallb_forall in H. apply H, code_units_complete.
Qed.

(** Ignoring case, a plain pattern character matches exactly the
    characters whose lower case it is. *)
Lemma char_matches_plain (p x : ascii) :
  plain p = true -> char_matches true p x = Ascii.eqb (lower x) p.
Proof.
  revert x.
  assert (H : forallb (fun p => forallb (fun x =>
             implb (plain p)
                   (Bool.eqb (char_matches true p x) (Ascii.eqb (lower x) p)))
             code_units) code_units = true) by (vm_compute; reflexivity).
  intros x Hp.
  pose proof (forall_code_units _ (forall_code_units _ H p) x) as Hx.
  cbv beta in Hx. rewrite Hp in Hx. simpl in Hx.
  apply Bool.eqb_prop in Hx. exact Hx.
Qed.

(** The class of identifier characters is closed under ignoring case. *)
Lemma class_matches_id (x : ascii) :
  class_matches true (fun c => word_char c || (code c =? 45)%N) x
  = id_char (lower x).
Proof.
  apply Bool.eqb_prop. revert x.
  apply (forall_code_units
           (fun x => Bool.eqb
              (class_matches true (fun c => word_char c || (code c =? 45)%N) x)
              (id_char (lower x)))).
  vm_compute. reflexivity.
Qed.

Lemma lower_case_nil (w : list ascii) : lower_case w = [] -> w = [].
Proof. destruct w; [reflexivity | discriminate]. Qed.

(** A literal of plain characters, run with the [i] flag, consumes exactly
    a word whose lower case is the literal. *)
Lemma run_lit (cs : list ascii) :
  forallb plain cs = true ->
  forall i inp k,
    run true (lit_chars cs) (i, inp) k = true
    <-> exists w rest, inp = (w ++ rest)%list /\ lower_case w = cs
                       /\ k (i + List.length w, rest) = true.
Proof.
  induction cs as [|c cs IH]; intros Hplain i inp k.
  - simpl. split.
    + intros Hk. exists [], inp. rewrite Nat.add_0_r. auto.
    + intros (w & rest & -> & Hw & Hk). apply lower_case_nil in Hw. subst w.
      simpl in Hk. rewrite Nat.add_0_r in Hk. exact Hk.
  - simpl in Hplain. apply andb_true_iff in Hplain as [Hc Hcs].
    cbn [lit_chars run]. destruct inp as [|x inp].
    + split; [discriminate|].
      intros (w & rest & Hin & Hw & _). destruct w; discriminate.
    + rewrite (char_matches_plain c x Hc), andb_true_iff, Ascii.eqb_eq, (IH Hcs).
      split.
      * intros (Hx & w & rest & -> & Hw & Hk).
        exists (x :: w), rest. simpl. rewrite Hx, Hw.
        rewrite Nat.add_succ_r. auto.
      * intros (w & rest & Hin & Hw & Hk). destruct w as [|y w]; [discriminate|].
        simpl in Hin, Hw, Hk. injection Hin as -> ->. injection Hw as Hy Hw.
        split; [exact Hy|]. exists w, rest.
        rewrite Nat.add_succ_r in Hk. auto.
Qed.

(** [test] of such a literal: its lower-case form occurs in the text. *)
Lemma search_lit (cs : list ascii) :
  forallb plain cs = true ->
  forall s i,
    search true (lit_chars cs) i s = true
    <-> exists pre post, lower_case s = (pre ++ cs ++ post)%list.
Proof.
  intros Hplain. induction s as [|x s IH]; intros i.
  - simpl. rewrite orb_false_r, (run_lit _ Hplain). split.
    + intros (w & rest & Hin & Hw & _).
      symmetry in Hin. apply app_eq_nil in Hin as [-> ->].
      simpl in Hw. subst cs. exists [], []. reflexivity.
    + intros (pre & post & H). simpl in H. symmetry in H.
      apply app_eq_nil in H as [_ H]. apply app_eq_nil in H as [-> _].
      exists [], []. auto.
  - simpl. rewrite orb_true_iff, (run_lit _ Hplain), IH. split.
    + intros [(w & rest & Hin & Hw & _) | (pre & post & H)].
      * exists [], (lower_case rest).
        change (lower_case (x :: s) = (cs ++ lower_case rest)%list).
        rewrite Hin. unfold lower_case. rewrite map_app. fold (lower_case w).
        rewrite Hw. reflexivity.
      * exists (lower x :: pre), post. rewrite H. reflexivity.
    + intros (pre & post & H). destruct pre as [|y pre].
      * left. simpl in H.
        change (lower x :: lower_case s) with (lower_case (x :: s)) in H.
        unfold lower_case in H. apply map_eq_app in H as (w & rest & Hin & Hw & _).
        exists w, rest. auto.
      * right. simpl in H. injection H as _ H. exists pre, post. exact H.
Qed.

Lemma validateUrl_app_shapes (url : string) :
  App.validateUrl url = true
  <-> exists shape, In shape app_shapes
                    /\ occurs_in shape (lower_case (chars url)).
Proof.
  unfold App.validateUrl, App.YOUTUBE_PATTERNS, test, lit, occurs_in, app_shapes.
  rewrite existsb_exists. split.
  - intros (pattern & Hin & Hrun). cbn [In] in Hin.
    repeat (destruct Hin as [<- | Hin];
            [ apply search_lit in Hrun; [|vm_compute; reflexivity];
              eexists; split; [|exact Hrun]; cbn [In]; tauto |]).
    contradiction.
  - intros (shape & Hin & Hocc). exists (lit_chars (chars shape)).
    cbn [In] in Hin |- *.
    split; [intuition congruence|].
    apply search_lit; [|exact Hocc].
    repeat (destruct Hin as [<- | Hin]; [vm_compute; reflexivity|]).
    contradiction.
Qed.

Lemma accepts_lit (cs : list ascii) k P :
  forallb plain cs = true ->
  accepts k P ->
  accepts (fun p => run true (lit_chars cs) p k)
          (fun t => exists t', t = (cs ++ t')%list /\ P t').
Proof.
  intros Hplain Hk i s. rewrite (run_lit _ Hplain). split.
  - intros (w & rest & -> & Hw & Hrest). apply Hk in Hrest.
    exists (lower_case rest). split; [|exact Hrest].
    unfold lower_case. rewrite map_app. fold (lower_case w). rewrite Hw.
    reflexivity.
  - intros (t' & Hs & Ht'). unfold lower_case in Hs.
    apply map_eq_app in Hs as (w & rest & -> & Hw & <-).
    exists w, rest. repeat split; [exact Hw|]. apply Hk. exact Ht'.
Qed.

Lemma accepts_char (c : ascii) k P :
  plain c = true ->
  accepts k P ->
  accepts (fun p => run true (Char c) p k)
          (fun t => exists t', t = c :: t' /\ P t').
Proof.
  intros Hc Hk i s. cbn [run]. destruct s as [|x s].
  - split; [discriminate|]. intros (t' & H & _). discriminate.
  - rewrite (char_matches_plain c x Hc), andb_true_iff, Ascii.eqb_eq, (Hk (S i) s).
    simpl. split.
    + intros [<- HP]. eauto.
    + intros (t' & H & HP). injection H as -> <-. auto.
Qed.

Lemma accepts_seq (r1 r2 : node) k Q :
  accepts (fun p => run true r1 p (fun p' => run true r2 p' k)) Q ->
  accepts (fun p => run true (Seq r1 r2) p k) Q.
Proof. intros H. exact H. Qed.

Lemma accepts_opt (r : node) k Q P :
  accepts (fun p => run true r p k) Q ->
  accepts k P ->
  accepts (fun p => run true (Opt r) p k) (fun t => Q t \/ P t).
Proof.
  intros Hr Hk i s. cbn [run]. rewrite orb_true_iff, (Hr i s), (Hk i s).
  reflexivity.
Qed.

Lemma accepts_alt (r1 r2 : node) k Q1 Q2 :
  accepts (fun p => run true r1 p k) Q1 ->
  accepts (fun p => run true r2 p k) Q2 ->
  accepts (fun p => run true (Alt r1 r2) p k) (fun t => Q1 t \/ Q2 t).
Proof.
  intros H1 H2 i s. cbn [run]. rewrite orb_true_iff, (H1 i s), (H2 i s).
  reflexivity.
Qed.

(** At the end of the pattern, one identifier character is enough for
    [[\w-]+]. *)
Lemma accepts_identifier :
  accepts (fun p => run true (Plus (Class (fun c => word_char c || (code c =? 45)%N)))
                        p (fun _ => true))
          (fun t => exists c rest, t = c :: rest /\ id_char c = true).
Proof.
  intros i s. cbn [run snd]. destruct s as [|x s].
  - destruct (List.length (@nil ascii)); simpl; split; try discriminate;
      intros (c & rest & H & _); discriminate.
  - assert (H : forall fuel,
               iterate (run true (Class (fun c => word_char c || (code c =? 45)%N)))
                       (fun _ => true) fuel (i, x :: s)
               = id_char (lower x)).
    { intros fuel. destruct fuel; cbn [iterate run];
        rewrite class_matches_id; [apply andb_true_r|].
      rewrite orb_true_r. apply andb_true_r. }
    rewrite H. simpl. split.
    + intros Hx. eauto.
    + intros (c & rest & Heq & Hc). injection Heq as <- _. exact Hc.
Qed.

(** A pattern that starts with [^] can only match at index 0. *)
Lemma search_bol (r : node) (s : list ascii) :
  search true (Seq Bol r) 0 s = run true r (0, s) (fun _ => true).
Proof.
  assert (H : forall s i, search true (Seq Bol r) (S i) s = false).
  { clear s. induction s as [|x s IH]; intros i; simpl; [reflexivity|].
    apply IH. }
  destruct s; simpl; [apply orb_false_r|]. rewrite H. apply orb_false_r.
Qed.

Lemma accepts_iff k (P Q : list ascii -> Prop) :
  accepts k P -> (forall t, P t <-> Q t) -> accepts k Q.
Proof. intros Hk HPQ i s. rewrite (Hk i s). apply HPQ. Qed.

Lemma accepts_shapes :
  accepts (fun p => run true
             (Seq (Alt (lit "youtube.com/watch?v=")
                  (Alt (lit "youtu.be/")
                  (Alt (lit "youtube.com/shorts/")
                  (Alt (lit "youtube.com/embed/")
                       (lit "music.youtube.com/watch?v=")))))
                  (Plus (Class (fun c => word_char c || (code c =? 45)%N))))
             p (fun _ => true))
          has_shape.
Proof.
  pose proof (fun sh H => accepts_lit (chars sh) _ _ H accepts_identifier) as Hsh.
  refine (accepts_iff _ _ _ (accepts_seq _ _ _ _
    (accepts_alt _ _ _ _ _ (Hsh "youtube.com/watch?v=" eq_refl)
    (accepts_alt _ _ _ _ _ (Hsh "youtu.be/" eq_refl)
    (accepts_alt _ _ _ _ _ (Hsh "youtube.com/shorts/" eq_refl)
    (accepts_alt _ _ _ _ _ (Hsh "youtube.com/embed/" eq_refl)
                           (Hsh "music.youtube.com/watch?v=" eq_refl)))))) _).
  intros t. cbv beta. unfold has_shape, has_id, single_shapes. split.
  - intros [H | [H | [H | [H | H]]]]; destruct H as (t' & -> & Hid);
      eexists _, t'; (split; [|split; [reflexivity|exact Hid]]);
      cbn [In]; tauto.
  - intros (shape & t' & Hin & -> & Hid). cbn [In] in Hin.
    destruct Hin as [<- | [<- | [<- | [<- | [<- | []]]]]]; eauto 8.
Qed.

Lemma accepts_www :
  accepts (fun p => run true
             (Seq (Opt (lit "www."))
             (Seq (Alt (lit "youtube.com/watch?v=")
                  (Alt (lit "youtu.be/")
                  (Alt (lit "youtube.com/shorts/")
                  (Alt (lit "youtube.com/embed/")
                       (lit "music.youtube.com/watch?v=")))))
                  (Plus (Class (fun c => word_char c || (code c =? 45)%N)))))
             p (fun _ => true))
          has_www.
Proof.
  refine (accepts_iff _ _ _ (accepts_seq _ _ _ _
    (accepts_opt _ _ _ _
       (accepts_lit (chars "www.") _ _ eq_refl accepts_shapes)
       accepts_shapes)) _).
  intros t. cbv beta. unfold has_www. split.
  - intros [(t' & -> & H) | H].
    + exists "www.", t'. cbn [In]. auto.
    + exists "", t. cbn [In]. auto.
  - intros (www & t' & Hin & -> & H). cbn [In] in Hin.
    destruct Hin as [<- | [<- | []]]; [right; exact H | left; eauto].
Qed.

Lemma accepts_pattern :
  accepts (fun p => run true
             (Seq (Opt (Seq (lit "http") (Seq (Opt (Char "s")) (lit "://"))))
             (Seq (Opt (lit "www."))
             (Seq (Alt (lit "youtube.com/watch?v=")
                  (Alt (lit "youtu.be/")
                  (Alt (lit "youtube.com/shorts/")
                  (Alt (lit "youtube.com/embed/")
                       (lit "music.youtube.com/watch?v=")))))
                  (Plus (Class (fun c => word_char c || (code c =? 45)%N))))))
             p (fun _ => true))
          has_scheme.
Proof.
  refine (accepts_iff _ _ _ (accepts_seq _ _ _ _
    (accepts_opt _ _ _ _
       (accepts_seq _ _ _ _
          (accepts_lit (chars "http") _ _ eq_refl
             (accepts_seq _ _ _ _
                (accepts_opt _ _ _ _
                   (accepts_char "s" _ _ eq_refl
                      (accepts_lit (chars "://") _ _ eq_refl accepts_www))
                   (accepts_lit (chars "://") _ _ eq_refl accepts_www)))))
       accepts_www)) _).
  intros t. cbv beta. unfold has_scheme. split.
  - intros [(t1 & -> & [(t2 & -> & t3 & -> & H) | (t3 & -> & H)]) | H].
    + exists "https://", t3. cbn [In]. auto.
    + exists "http://", t3. cbn [In]. auto.
    + exists "", t. cbn [In]. auto.
  - intros (scheme & t' & Hin & -> & H). cbn [In] in Hin.
    destruct Hin as [<- | [<- | [<- | []]]].
    + right. exact H.
    + left. exists (chars "://" ++ t')%list. split; [reflexivity|].
      right. eauto.
    + left. exists (chars "s://" ++ t')%list. split; [reflexivity|].
      left. exists (chars "://" ++ t')%list. split; [reflexivity|]. eauto.
Qed.

Lemma validateUrl_single_shapes (url : string) :
  Single.validateUrl url = true
  <-> exists scheme www shape c rest,
        In scheme [""; "http://"; "https://"] /\ In www [""; "www."]
        /\ In shape single_shapes /\ id_char c = true
        /\ lower_case (chars url)
           = (chars scheme ++ chars www ++ chars shape ++ c :: rest)%list.
Proof.
  unfold Single.validateUrl, test, Single.YOUTUBE_PATTERN.
  rewrite search_bol, (accepts_pattern 0 (chars url)).
  unfold has_scheme, has_www, has_shape, has_id. split.
  - intros (scheme & t1 & Hs & -> & www & t2 & Hw & -> & shape & t3 & Hsh
            & -> & c & rest & -> & Hc).
    exists scheme, www, shape, c, rest. auto.
  - intros (scheme & www & shape & c & rest & Hs & Hw & Hsh & Hc & ->).
    exists scheme, (chars www ++ chars shape ++ c :: rest)%list.
    repeat split; [exact Hs|].
    exists www, (chars shape ++ c :: rest)%list.
    repeat split; [exact Hw|].
    exists shape, (c :: rest).
    repeat split; [exact Hsh|].
    exists c, rest. auto.
Qed.

(** The link the listing of the specification misses: none of the five
    listed shapes occurs in a link of the legacy embed path [/v/], however
    leniently they are read, and [YOUTUBE_PATTERNS] accepts it; the second
    copy of the script rejects the same link, so that no one reading of the
    listing describes both. *)
Lemma validate_accepts_unlisted_shape :
  App.validateUrl "https://www.youtube.com/v/abc123" = true
  /\ ~ listed_shape_occurs "https://www.youtube.com/v/abc123"
  /\ Single.validateUrl "https://www.youtube.com/v/abc123" = false.
Proof.
  split; [vm_compute; reflexivity|].
  split; [|vm_compute; reflexivity].
  intros (shape & Hin & Hocc). unfold listed_shapes in Hin. cbn [In] in Hin.
  unfold occurs_in in Hocc.
  destruct Hin as [<- | [<- | [<- | [<- | [<- | []]]]]];
    match type of Hocc with
    | exists pre post, _ = (pre ++ ?cs ++ post)%list =>
        apply (proj2 (search_lit cs eq_refl
                        (chars "https://www.youtube.com/v/abc123") 0)) in Hocc
    end;
    vm_compute in Hocc; discriminate.
Qed.

(** C1 (amended). [validateUrl] of [static/js/app.js] accepts a text exactly
    when one of its six shapes (the five listed ones and [youtube.com/v/])
    occurs in it, whatever the case and whatever stands before; the second
    copy accepts a text exactly when it begins, whatever the case, with an
    optional scheme, an optional [www.], one of its five shapes and one
    identifier character.  Both accept the four links of the specification
    and reject its three other texts. *)
Theorem validate_accepts_exactly_its_shapes :
  (forall url,
      App.validateUrl url = true
      <-> exists shape, In shape app_shapes
                        /\ occurs_in shape (lower_case (chars url)))
  /\ (forall url,
      Single.validateUrl url = true
      <-> exists scheme www shape c rest,
            In scheme [""; "http://"; "https://"] /\ In www [""; "www."]
            /\ In shape single_shapes /\ id_char c = true
            /\ lower_case (chars url)
               = (chars scheme ++ chars www ++ chars shape ++ c :: rest)%list)
  /\ Forall (fun url => App.validateUrl url = true
                        /\ Single.validateUrl url = true)
       [ "https://www.youtube.com/watch?v=abc123"; "youtu.be/abc123";
         "https://youtube.com/shorts/abc123";
         "https://music.youtube.com/watch?v=abc123" ]
  /\ Forall (fun url => App.validateUrl url = false
                        /\ Single.validateUrl url = false)
       [ ""; "https://vimeo.com/123"; "not a url" ].
Proof.
  split; [exact validateUrl_app_shapes|].
  split; [exact validateUrl_single_shapes|].
  split; repeat constructor; vm_compute; reflexivity.
Qed.

(** ** Submission *)

(** C2. A submission that fails a precondition (an attempt is in flight, or
    the trimmed text is empty, or it fails [validateUrl]) issues no request
    and changes nothing but the inline input error; an empty text and a
    text that is not a link get two different messages.  [handleSubmit]
    has the same text in both variants, which differ in the [validateUrl]
    and the [startDownload] it calls. *)
Theorem submit_rejected_touches_only_input_error
    (validateUrl : string -> bool) (startDownload : string -> M unit)
    (s : state) :
  isProcessing s = true
  \/ trim (in_value (urlInput s)) = ""
  \/ validateUrl (trim (in_value (urlInput s))) = false ->
  let s' := handleSubmit_of validateUrl startDownload s in
  requests (trace s') = requests (trace s)
  /\ same_but_input_error s s'
  /\ (isProcessing s = true -> s' = s)
  /\ (isProcessing s = false -> trim (in_value (urlInput s)) = "" ->
      inputError s'
      = {| error_text := "Please enter a YouTube link"; error_visible := true |})
  /\ (isProcessing s = false -> trim (in_value (urlInput s)) <> "" ->
      inputError s'
      = {| error_text := "Please enter a valid YouTube link";
           error_visible := true |})
  /\ "Please enter a YouTube link" <> "Please enter a valid YouTube link".
Proof.
  intros Hrej s'. subst s'. unfold handleSubmit_of.
  destruct (isProcessing s) eqn:Hp.
  - repeat split; discriminate.
  - destruct Hrej as [Hrej | Hrej]; [discriminate|].
    destruct (trim (in_value (urlInput s))) as [|c url] eqn:Hurl.
    + repeat split; try discriminate. intros _ H. contradiction.
    + destruct Hrej as [Hrej | Hrej]; [discriminate|]. rewrite Hrej.
      cbn [negb]. repeat split; discriminate.
Qed.


(** ** The metadata fetch and the retry loop *)

Lemma requests_app (t t' : list action) :
  requests (t ++ t') = (requests t ++ requests t')%list.
Proof.
  induction t as [|a t IH]; [reflexivity|].
  destruct a; simpl; rewrite IH; reflexivity.
Qed.

(** [fetchVideoInfo] issues one request and returns what [info_outcome]
    makes of the way it settles. *)
Lemma fetchVideoInfo_settles net (url : string) (s : state) :
  App.fetchVideoInfo net url s
  = (info_outcome (net (sent s)), emit (Fetch (info_request url)) s).
Proof.
  unfold App.fetchVideoInfo, App.fetch, bind, try_catch, info_request, sent.
  destruct (net (List.length (requests (trace s)))) as [why | [[] [why | [data | |]]]];
    reflexivity.
Qed.

Lemma fetch_with_retry_exit net url retries info lastError s :
  (retries < 0)%Z ->
  App.fetch_with_retry net url retries info lastError s = ((info, lastError), s).
Proof.
  intros H. rewrite App.fetch_with_retry_equation_1.
  destruct (Z_le_gt_dec 0 retries) as [Hle | Hgt]; [lia|]. reflexivity.
Qed.

Lemma fetch_with_retry_step net url retries info lastError s :
  (0 <= retries)%Z ->
  App.fetch_with_retry net url retries info lastError s
  = match info_outcome (net (sent s)) with
    | Ok data => ((Some data, lastError), emit (Fetch (info_request url)) s)
    | Throw err =>
        App.fetch_with_retry net url (retries - 1) info (Some err)
          (if (0 <=? retries - 1)%Z
           then App.sleep 1000
                  (showProgress "Retrying..." 10
                     (emit (ConsoleLog ("Retry attempt, "
                                        ++ string_of_Z (retries - 1 + 1)
                                        ++ " left..."))
                           (emit (Fetch (info_request url)) s)))
           else emit (Fetch (info_request url)) s)
    end.
Proof.
  intros H. rewrite App.fetch_with_retry_equation_1.
  destruct (Z_le_gt_dec 0 retries) as [Hle | Hgt]; [|lia].
  cbn. rewrite fetchVideoInfo_settles.
  destruct (info_outcome _); reflexivity.
Qed.

(** What each step does to the trace and to the count of requests. *)
Lemma trace_emit a s : trace (emit a s) = (trace s ++ [a])%list.
Proof. reflexivity. Qed.

Lemma trace_showProgress stage pct s :
  trace (showProgress stage pct s) = (trace s ++ [Progress stage pct])%list.
Proof. reflexivity. Qed.

Lemma trace_wait ms s : trace (wait ms s) = (trace s ++ [Wait ms])%list.
Proof. reflexivity. Qed.

Lemma trace_prelude s :
  trace (prelude s) = (trace s ++ [Progress "Fetching video info..." 5])%list.
Proof. reflexivity. Qed.

Lemma sent_prelude s : sent (prelude s) = sent s.
Proof.
  unfold sent. rewrite trace_prelude, requests_app, length_app. simpl. lia.
Qed.

Lemma sent_retry left url s :
  sent (App.sleep 1000
          (showProgress "Retrying..." 10
             (emit (ConsoleLog left) (emit (Fetch url) s))))
  = S (sent s).
Proof.
  unfold sent, App.sleep.
  rewrite trace_wait, trace_showProgress, !trace_emit.
  rewrite !requests_app, !length_app. simpl. lia.
Qed.

(** [startDownload] of [static/js/app.js] by the exit of its loop. *)
Lemma app_startDownload_cases net endpoint url s :
  App.startDownload net endpoint url s
  = match App.fetch_with_retry net url 2 None None (prelude s) with
    | ((info, lastError), s1) =>
        match usable info with
        | Some info =>
            (Ok tt,
             setProcessingState false
               (setTimeout cb_reset 4000
                  (setTimeout cb_success 500
                     (showProgress "Complete!" 100
                        (snd (App.triggerDownload endpoint url (j_title info)
                                (showProgress "Downloading..." 60
                                   (long_video_notice info
                                      (showProgress "Preparing download..." 30
                                         (showSongInfo info s1))))))))))
        | None =>
            let e := match lastError with
                     | Some e => e
                     | None => new_Error "Could not get video info"
                     end in
            (Ok tt,
             setProcessingState false
               (hideSongInfo
                  (hideProgress
                     (showError "Download failed" (surfaced e)
                        (emit (ConsoleError "Download error:" e) s1)))))
        end
    end.
Proof.
  unfold App.startDownload, bind, act, try_finally, try_catch, prelude,
    long_video_notice.
  cbv beta.
  destruct (App.fetch_with_retry net url 2 None None _)
    as [[[[info | |]|] le] s1]; cbn [ret usable]; try reflexivity.
  destruct (num_gt _ _); reflexivity.
Qed.

(** The loop of [startDownload], unrolled: at most three attempts. *)
Lemma app_loop net url s0 :
  App.fetch_with_retry net url 2 None None s0
  = let f := emit (Fetch (info_request url)) in
    match info_outcome (net (sent s0)) with
    | Ok d => ((Some d, None), f s0)
    | Throw e1 =>
        match info_outcome (net (S (sent s0))) with
        | Ok d => ((Some d, Some e1), f (retrying 2 (f s0)))
        | Throw e2 =>
            match info_outcome (net (S (S (sent s0)))) with
            | Ok d => ((Some d, Some e2), f (retrying 1 (f (retrying 2 (f s0)))))
            | Throw e3 =>
                ((None, Some e3), f (retrying 1 (f (retrying 2 (f s0)))))
            end
        end
    end.
Proof.
  cbv zeta. rewrite fetch_with_retry_step by lia.
  destruct (info_outcome (net (sent s0))) as [d | e1]; [reflexivity|].
  change (2 - 1)%Z with 1%Z. change (0 <=? 1)%Z with true. cbv iota.
  rewrite fetch_with_retry_step by lia.
  change (1 + 1)%Z with 2%Z. rewrite sent_retry.
  destruct (info_outcome (net (S (sent s0)))) as [d | e2]; [reflexivity|].
  change (1 - 1)%Z with 0%Z. change (0 <=? 0)%Z with true. cbv iota.
  rewrite fetch_with_retry_step by lia.
  change (0 + 1)%Z with 1%Z. rewrite !sent_retry.
  destruct (info_outcome (net (S (S (sent s0))))) as [d | e3]; [reflexivity|].
  change (0 - 1)%Z with (-1)%Z. change (0 <=? -1)%Z with false. cbv iota.
  rewrite fetch_with_retry_exit by lia. reflexivity.
Qed.



(** ** The contract of the metadata fetch *)

(** The contract of [fetchVideoInfo] in [static/js/app.js]: a body that does
    not parse gives the generic server error, never the parser's exception;
    a failure status gives the message of the server, or the generic
    message when the body is an object or a falsy primitive that carries
    none; otherwise the parsed value is returned as it is.  A failure
    status with the body [null] is where the contract ends: the read of
    [data.error] throws. *)
Theorem app_fetchVideoInfo_contract net (url : string) (s : state) :
  let r := fst (App.fetchVideoInfo net url s) in
  (forall ok why, net (sent s) = Responded {| ok := ok; body := Malformed why |} ->
                  r = Throw (new_Error "Server error. Please try again."))
  /\ (forall data c m,
         net (sent s) = Responded {| ok := false; body := Parsed (Object data) |} ->
         j_error data = Some (String c m) ->
         r = Throw (new_Error (String c m)))
  /\ (forall data,
         net (sent s) = Responded {| ok := false; body := Parsed (Object data) |} ->
         j_error data = None \/ j_error data = Some "" ->
         r = Throw (new_Error "Failed to fetch video info"))
  /\ (net (sent s) = Responded {| ok := false; body := Parsed Falsy |} ->
      r = Throw (new_Error "Failed to fetch video info"))
  /\ (net (sent s) = Responded {| ok := false; body := Parsed Null |} ->
      r = Throw (null_read "error"))
  /\ (forall v,
         net (sent s) = Responded {| ok := true; body := Parsed v |} ->
         r = Ok v)
  /\ (forall e, r = Throw e -> name e <> SyntaxError).
Proof.
  cbv zeta. rewrite fetchVideoInfo_settles. cbn [fst].
  repeat apply conj.
  - intros ok why ->. destruct ok; reflexivity.
  - intros data c m -> H. cbn. rewrite H. reflexivity.
  - intros data -> [H | H]; cbn; rewrite H; reflexivity.
  - intros ->. reflexivity.
  - intros ->. reflexivity.
  - intros v ->. reflexivity.
  - intros e.
    destruct (net (sent s)) as [why | [[] [why | [data | |]]]]; cbn;
      intros H; inversion H; subst; discriminate.
Qed.

(** C4. In the second copy of the script [fetchVideoInfo] has no guard
    around [response.json()]: when the info endpoint answers with a body
    that does not parse, the parser's exception leaves the function and its
    message is what the error status shows, where [static/js/app.js] gives
    the generic server error for the same response. *)
Theorem single_fetchVideoInfo_leaks_parse_error :
  let net := fun _ : nat =>
    Responded {| ok := false;
                 body := Malformed "Unexpected token < in JSON at position 0" |} in
  let page := idle_page "youtu.be/abc123" in
  fst (Single.fetchVideoInfo net "youtu.be/abc123" page)
  = Throw {| name := SyntaxError;
             message := "Unexpected token < in JSON at position 0" |}
  /\ status_message
       (status (snd (Single.startDownload net serving "youtu.be/abc123" page)))
     = "Unexpected token < in JSON at position 0"
  /\ fst (App.fetchVideoInfo net "youtu.be/abc123" page)
     = Throw (new_Error "Server error. Please try again.").
Proof. vm_compute. repeat split. Qed.

(** ** The long-video notice *)

(** The loop leaves alone what the prelude has set. *)
Lemma app_loop_frame net url s0 :
  let s1 := snd (App.fetch_with_retry net url 2 None None s0) in
  isProcessing s1 = isProcessing s0 /\ urlInput s1 = urlInput s0
  /\ downloadBtn s1 = downloadBtn s0 /\ songInfo s1 = songInfo s0
  /\ status s1 = status s0 /\ inputHint_display s1 = inputHint_display s0
  /\ inputError s1 = inputError s0 /\ body_frames s1 = body_frames s0
  /\ frames_created s1 = frames_created s0 /\ timers s1 = timers s0.
Proof.
  cbv zeta. rewrite app_loop. cbv zeta.
  destruct (info_outcome (net (sent s0))); [repeat split|].
  destruct (info_outcome (net (S (sent s0)))); [repeat split|].
  destruct (info_outcome (net (S (S (sent s0))))); repeat split.
Qed.


(** ** Guaranteed clean-up *)

Lemma app_startDownload_cleanup net endpoint url s :
  exists s0, App.startDownload net endpoint url s
             = (Ok tt, setProcessingState false s0).
Proof.
  rewrite app_startDownload_cases.
  destruct (App.fetch_with_retry net url 2 None None (prelude s))
    as [[got le] s1]; destruct (usable got) as [info|]; eexists; reflexivity.
Qed.

Lemma app_startDownload_requests net endpoint url s :
  exists t, trace (snd (App.startDownload net endpoint url s))
            = (trace s ++ Progress "Fetching video info..." 5
                 :: Fetch (info_request url) :: t)%list.
Proof.
  rewrite app_startDownload_cases, app_loop. cbv zeta.
  destruct (info_outcome (net (sent (prelude s)))) as [[info | |] | e1];
    [solve [cbn [usable]; unfold long_video_notice;
            try destruct (num_gt _ _); cbn; rewrite <- !app_assoc;
            eexists; reflexivity]..|].
  destruct (info_outcome (net (S (sent (prelude s))))) as [[info | |] | e2];
    [solve [cbn [usable]; unfold long_video_notice;
            try destruct (num_gt _ _); cbn; rewrite <- !app_assoc;
            eexists; reflexivity]..|].
  destruct (info_outcome (net (S (S (sent (prelude s))))))
    as [[info | |] | e3];
    cbn [usable]; unfold long_video_notice;
    try destruct (num_gt _ _); cbn; rewrite <- !app_assoc;
    eexists; reflexivity.
Qed.

Lemma app_startDownload_keeps_input net endpoint url s :
  in_value (urlInput (snd (App.startDownload net endpoint url s)))
  = in_value (urlInput s).
Proof.
  pose proof (app_loop_frame net url (prelude s)) as Hframe.
  cbv zeta in Hframe. destruct Hframe as (_ & Hin & _).
  rewrite app_startDownload_cases.
  destruct (App.fetch_with_retry net url 2 None None (prelude s))
    as [[got le] s1]; destruct (usable got) as [info|]; cbn [snd] in Hin |- *.
  - unfold long_video_notice. destruct (num_gt _ _); cbn; rewrite Hin;
      reflexivity.
  - cbn. rewrite Hin. reflexivity.
Qed.

(** C7. However the requests settle, an attempt completes with the
    processing flag reset and the input and the submit control enabled
    again, and a valid link submitted afterwards starts a new attempt. *)
Theorem attempt_always_cleans_up net endpoint (url typed : string) (s : state) :
  trim typed <> "" ->
  App.validateUrl (trim typed) = true ->
  let r := App.startDownload net endpoint url s in
  let again := type_in typed (snd r) in
  fst r = Ok tt
  /\ isProcessing (snd r) = false
  /\ in_disabled (urlInput (snd r)) = false
  /\ downloadBtn (snd r) = {| btn_disabled := false; btn_loading := false |}
  /\ App.handleSubmit net endpoint again
     = snd (App.startDownload net endpoint (trim typed) again)
  /\ exists t, trace (App.handleSubmit net endpoint again)
               = (trace again ++ Progress "Fetching video info..." 5
                    :: Fetch (info_request (trim typed)) :: t)%list.
Proof.
  intros Hne Hvalid r again.
  assert (Hsubmit : App.handleSubmit net endpoint again
                    = snd (App.startDownload net endpoint (trim typed) again)).
  { unfold App.handleSubmit, handleSubmit_of.
    subst again r. destruct (app_startDownload_cleanup net endpoint url s)
      as [s0 ->].
    cbn [snd type_in in_value urlInput set_urlInput isProcessing
         setProcessingState set_isProcessing set_downloadBtn].
    destruct (trim typed) as [|c u] eqn:Ht; [contradiction|].
    rewrite Hvalid. reflexivity. }
  subst r.
  destruct (app_startDownload_cleanup net endpoint url s) as [s0 Hs0].
  repeat apply conj.
  - rewrite Hs0. reflexivity.
  - rewrite Hs0. reflexivity.
  - rewrite Hs0. reflexivity.
  - rewrite Hs0. reflexivity.
  - exact Hsubmit.
  - rewrite Hsubmit. apply app_startDownload_requests.
Qed.

(** ** The delayed reset *)

(** C8. The delayed reset (the callback of the 4000 ms timer of a successful
    attempt runs [resetForm]) hides the status, the progress and the song
    panels and clears the inline input error; the text of the input stays as
    it is. *)
Theorem reset_keeps_typed_url (s : state) :
  let s' := resetForm s in
  fire cb_reset s = (Ok tt, s')
  /\ status_hidden (status s') = true
  /\ progress_hidden (progress s') = true
  /\ song_hidden (songInfo s') = true
  /\ in_error (urlInput s') = false
  /\ error_visible (inputError s') = false
  /\ inputHint_display s' = ""
  /\ in_value (urlInput s') = in_value (urlInput s)
  /\ in_disabled (urlInput s') = in_disabled (urlInput s)
  /\ isProcessing s' = isProcessing s.
Proof. repeat split. Qed.

(** ** The download trigger *)

Lemma detached_after_remove (f : nat) (l : list frame) :
  existsb (fun fr => (frame_id fr =? f)%nat)
          (filter (fun fr => negb (frame_id fr =? f)%nat) l) = false.
Proof.
  induction l as [|x l IH]; [reflexivity|].
  cbn. destruct (frame_id x =? f)%nat eqn:E; cbn; [exact IH|].
  rewrite E. exact IH.
Qed.




Lemma single_fetchVideoInfo_settles net (url : string) (s : state) :
  Single.fetchVideoInfo net url s
  = (single_fetched (net (sent s)), emit (Fetch (info_request url)) s).
Proof.
  unfold Single.fetchVideoInfo, App.fetch, bind, info_request, sent.
  destruct (net (List.length (requests (trace s))))
    as [why | [[] [why | [data | |]]]]; reflexivity.
Qed.

(** [startDownload] of the second copy by what its fetch and the first
    read of [showSongInfo] give. *)
Lemma single_startDownload_cases net endpoint url s :
  Single.startDownload net endpoint url s
  = let s1 := emit (Fetch (info_request url)) (prelude s) in
    match single_outcome (net (sent s)) with
    | Ok info =>
        (Ok tt,
         setProcessingState false
           (setTimeout cb_reset 4000
              (setTimeout cb_success 500
                 (showProgress "Complete!" 100
                    (snd (Single.triggerDownload endpoint url (j_title info)
                            (showProgress "Downloading..." 60
                               (long_video_notice info
                                  (showProgress "Preparing download..." 30
                                     (showSongInfo info s1))))))))))
    | Throw e =>
        (Ok tt,
         setProcessingState false
           (hideSongInfo
              (hideProgress (showError "Download failed" (surfaced e) s1))))
    end.
Proof.
  unfold Single.startDownload, try_finally, try_catch, long_video_notice.
  unfold bind at 1 2 3 4. unfold act at 1 2 3 4. cbv beta iota zeta.
  fold (prelude s).
  unfold bind at 1. rewrite single_fetchVideoInfo_settles, sent_prelude.
  unfold single_outcome.
  destruct (single_fetched (net (sent s))) as [[info | |] | e].
  - unfold bind, act. cbn [ret App.property]. destruct (num_gt _ _); reflexivity.
  - reflexivity.
  - unfold bind, act. cbn [ret App.property].
    destruct (num_gt _ _); reflexivity.
  - reflexivity.
Qed.



(** The second copy of the script cleans up in the same way. *)
Lemma single_attempt_cleans_up net endpoint (url : string) (s : state) :
  let r := Single.startDownload net endpoint url s in
  fst r = Ok tt
  /\ isProcessing (snd r) = false
  /\ in_disabled (urlInput (snd r)) = false
  /\ downloadBtn (snd r) = {| btn_disabled := false; btn_loading := false |}.
Proof.
  cbv zeta. rewrite single_startDownload_cases.
  destruct (single_outcome (net (sent s))) as [info | e];
    repeat split.
Qed.


(** ** Durations *)

(** C5. [formatDuration] renders 125 seconds as 2:05 and 3725 seconds as
    1:02:05; zero, every falsy value (absent, [null], [false], [NaN]) and
    every non-positive number render as 0:00. *)
Theorem formatDuration_display :
  formatDuration (JNum 125) = "2:05"
  /\ formatDuration (JNum 3725) = "1:02:05"
  /\ formatDuration (JNum 0) = "0:00"
  /\ (forall v, no_duration v -> formatDuration v = "0:00").
Proof.
  repeat apply conj; try (vm_compute; reflexivity).
  intros v [-> | [-> | [-> | [-> | (z & -> & Hz)]]]]; try reflexivity.
  unfold formatDuration. cbn [truthy to_number num_le].
  apply Z.leb_le in Hz. rewrite Hz, orb_true_r. reflexivity.
Qed.

(** ** File names *)

Lemma chars_text (l : list ascii) : chars (text l) = l.
Proof. apply list_ascii_of_string_of_list_ascii. Qed.



Lemma trimStart_spaces (l : list ascii) :
  Forall (fun c => is_space c = true) l -> trimStart l = [].
Proof.
  induction 1 as [|c l Hc _ IH]; [reflexivity|]. simpl. rewrite Hc. exact IH.
Qed.




(** [collapse], by the first two characters. *)
Lemma collapse_other c s :
  is_space c = false -> collapse (c :: s) = c :: collapse s.
Proof. intros H. simpl. rewrite H. reflexivity. Qed.



Lemma collapse_space_other c s :
  is_space c = true ->
  match s with d :: _ => is_space d = false | [] => True end ->
  collapse (c :: s) = " "%char :: collapse s.
Proof.
  intros Hc Hs. destruct s as [|d s]; simpl; rewrite Hc; [reflexivity|].
  rewrite Hs. reflexivity.
Qed.



Lemma tidy_app_r (a b : list ascii) : tidy (a ++ b) -> tidy b.
Proof.
  induction a as [|c a IH]; [auto|]. simpl. intros [_ Ht]. exact (IH Ht).
Qed.

Lemma tidy_blank_separated (r : list ascii) : tidy r -> blank_separated r.
Proof.
  intros Ht. split.
  - induction r as [|x r IH]; [contradiction|].
    destruct Ht as [Hx Ht]. intros c [<- | Hin] Hc.
    + apply Hx, Hc.
    + exact (IH Ht c Hin Hc).
  - intros a c d b -> Hc. apply tidy_app_r in Ht.
    destruct Ht as [Hx _]. apply Hx, Hc.
Qed.


(** The characters [sanitizeFilename] keeps of a title, before the
    default applies. *)
Lemma sanitizeFilename_unfold (title : option string) :
  sanitizeFilename title
  = match title with
    | None => "download"
    | Some t =>
        or_default
          (Some (text (trimEnd (trimStart
             (substring0 100
                (collapse (filter (fun c => negb (forbidden c)) (chars t))))))))
          "download"
    end.
Proof. destruct title as [[|c t]|]; reflexivity. Qed.








(** ** The statements at work on the pages of the specification *)

Example quota_exceeded_is_surfaced :
  let page := idle_page "youtu.be/abc123" in
  let after := snd (App.startDownload (refusing "quota exceeded") serving
                      "youtu.be/abc123" page) in
  let after1 := snd (Single.startDownload (refusing "quota exceeded") serving
                       "youtu.be/abc123" page) in
  status_class (status after) = "status status--error"
  /\ status_message (status after) = "quota exceeded"
  /\ isProcessing after = false
  /\ status_message (status after1) = "quota exceeded"
  /\ isProcessing after1 = false.
Proof. vm_compute. repeat split. Qed.

Lemma validate_shapes_witness :
  App.validateUrl "HTTPS://YouTu.be/abc123" = true.
Proof.
  apply (proj1 validate_accepts_exactly_its_shapes "HTTPS://YouTu.be/abc123").
  exists "youtu.be/". split; [cbn; tauto|].
  exists (chars "https://"), (chars "abc123"). reflexivity.
Defined.

Lemma submit_rejected_witness :
  App.validateUrl (trim (in_value (urlInput (idle_page " https://vimeo.com/123 "))))
  = false
  /\ same_but_input_error
       (idle_page " https://vimeo.com/123 ")
       (App.handleSubmit (refusing "quota exceeded") serving
          (idle_page " https://vimeo.com/123 ")).
Proof.
  split; [vm_compute; reflexivity|].
  refine (proj1 (proj2 (submit_rejected_touches_only_input_error
            App.validateUrl
            (App.startDownload (refusing "quota exceeded") serving)
            (idle_page " https://vimeo.com/123 ") _))).
  right. right. vm_compute. reflexivity.
Defined.



Lemma cleanup_witness :
  App.validateUrl (trim " youtu.be/abc123 ") = true
  /\ isProcessing (snd (App.startDownload (refusing "quota exceeded") serving
                          "youtu.be/abc123" (idle_page "youtu.be/abc123")))
     = false.
Proof.
  split; [vm_compute; reflexivity|].
  refine (proj1 (proj2 (attempt_always_cleans_up (refusing "quota exceeded")
            serving "youtu.be/abc123" " youtu.be/abc123 "
            (idle_page "youtu.be/abc123") _ _))).
  - vm_compute. discriminate.
  - vm_compute. reflexivity.
Defined.

Lemma formatDuration_witness :
  no_duration (JNum (-7)) /\ formatDuration (JNum (-7)) = "0:00".
Proof.
  assert (H : no_duration (JNum (-7))).
  { right. right. right. right. exists (-7)%Z. split; [reflexivity|].
    discriminate. }
  split; [exact H|].
  exact (proj2 (proj2 (proj2 formatDuration_display)) (JNum (-7)) H).
Defined.



(** The timers of a successful attempt, in the order in which the event
    loop fires them: the success status 500 ms after completion, the reset
    4000 ms after it, the removal of the frame 120000 ms after it.  The
    reset leaves the typed link in the input. *)
Example timers_after_success :
  let page := idle_page "youtu.be/abc123" in
  let done := snd (App.startDownload (answering_from 0 (song 125)) serving
                     "youtu.be/abc123" page) in
  now done = 1500%Z
  /\ song_duration (songInfo done) = "2:05"
  /\ exists s1 s2 s3,
       tick done = Some s1 /\ tick s1 = Some s2 /\ tick s2 = Some s3
       /\ tick s3 = None
       /\ (now s1 = 2000%Z /\ status_title (status s1) = "Download started!"
           /\ progress_hidden (progress s1) = true)
       /\ (now s2 = 5500%Z /\ status_hidden (status s2) = true
           /\ song_hidden (songInfo s2) = true
           /\ in_value (urlInput s2) = "youtu.be/abc123"
           /\ List.length (body_frames s2) = 1)
       /\ (now s3 = 121500%Z /\ body_frames s3 = []).
Proof.
  cbv zeta. split; [vm_compute; reflexivity|].
  split; [vm_compute; reflexivity|].
  eexists _, _, _.
  split; [vm_compute; reflexivity|].
  split; [vm_compute; reflexivity|].
  split; [vm_compute; reflexivity|].
  vm_compute. repeat split.
Qed.

(* ===================================================================== *)
(** * Further properties of the script *)
(* ===================================================================== *)

(** ** Validation *)

Lemma chars_app (a b : string) : chars (a ++ b) = (chars a ++ chars b)%list.
Proof.
  induction a as [|c a IH]; [reflexivity|].
  change (chars (String c a ++ b)) with (c :: chars (a ++ b)).
  rewrite IH. reflexivity.
Qed.

Lemma lower_case_app (a b : list ascii) :
  lower_case (a ++ b) = (lower_case a ++ lower_case b)%list.
Proof. apply map_app. Qed.

(** X1. Both validators read the text through its lower-case form only: two
    texts that differ in the case of their letters get the same verdict,
    in either variant. *)
Theorem validate_ignores_case (u v : string) :
  lower_case (chars u) = lower_case (chars v) ->
  App.validateUrl u = App.validateUrl v
  /\ Single.validateUrl u = Single.validateUrl v.
Proof.
  intros H. split; apply eq_iff_eq_true.
  - rewrite !validateUrl_app_shapes, H. reflexivity.
  - rewrite !validateUrl_single_shapes, H. reflexivity.
Qed.

(** X2. [validateUrl] of [static/js/app.js] looks for its shapes anywhere:
    a text that holds an accepted text is accepted, whatever stands before
    and after it. *)
Theorem app_validate_ignores_surroundings (pre url post : string) :
  App.validateUrl url = true ->
  App.validateUrl (pre ++ url ++ post) = true.
Proof.
  rewrite !validateUrl_app_shapes.
  intros (shape & Hin & a & b & H). exists shape. split; [exact Hin|].
  exists (lower_case (chars pre) ++ a)%list, (b ++ lower_case (chars post))%list.
  rewrite !chars_app, !lower_case_app, H, <- !app_assoc. reflexivity.
Qed.

(** X3. [validateUrl] of the second copy is anchored at the start only: what
    follows an accepted text never makes it rejected. *)
Theorem single_validate_ignores_rest (url post : string) :
  Single.validateUrl url = true ->
  Single.validateUrl (url ++ post) = true.
Proof.
  rewrite !validateUrl_single_shapes.
  intros (scheme & www & shape & c & rest & Hs & Hw & Hsh & Hc & H).
  exists scheme, www, shape, c, (rest ++ lower_case (chars post))%list.
  repeat split; try assumption.
  rewrite chars_app, lower_case_app, H, <- !app_assoc. reflexivity.
Qed.

(** X4. The second copy is the stricter one: every text it accepts is
    accepted by [static/js/app.js]. *)
Theorem single_validate_implies_app (url : string) :
  Single.validateUrl url = true -> App.validateUrl url = true.
Proof.
  rewrite validateUrl_single_shapes, validateUrl_app_shapes.
  intros (scheme & www & shape & c & rest & _ & _ & Hsh & _ & H).
  unfold single_shapes in Hsh. cbn [In] in Hsh.
  assert (Hsplit : forall (short tail : string),
             shape = short ++ tail ->
             In short app_shapes ->
             exists s, In s app_shapes
                       /\ occurs_in s (lower_case (chars url))).
  { intros short tail -> Hin. exists short. split; [exact Hin|].
    exists (chars scheme ++ chars www)%list, (chars tail ++ c :: rest)%list.
    rewrite H, chars_app, <- !app_assoc. reflexivity. }
  destruct Hsh as [<- | [<- | [<- | [<- | [<- | []]]]]].
  - apply (Hsplit "youtube.com/watch" "?v="); [reflexivity | cbn; tauto].
  - apply (Hsplit "youtu.be/" ""); [reflexivity | cbn; tauto].
  - apply (Hsplit "youtube.com/shorts/" ""); [reflexivity | cbn; tauto].
  - apply (Hsplit "youtube.com/embed/" ""); [reflexivity | cbn; tauto].
  - apply (Hsplit "music.youtube.com" "/watch?v="); [reflexivity | cbn; tauto].
Qed.

(** ** Submission of a blank text *)

Lemma trim_blank (typed : string) :
  Forall (fun c => is_space c = true) (chars typed) -> trim typed = "".
Proof.
  intros H. unfold trim. rewrite (trimStart_spaces _ H). reflexivity.
Qed.

(** X5. A text of white space only is answered like an empty one: the page
    asks to enter a link and nothing else happens, whichever variant. *)
Theorem blank_input_is_empty
    (validateUrl : string -> bool) (startDownload : string -> M unit)
    (s : state) :
  isProcessing s = false ->
  Forall (fun c => is_space c = true) (chars (in_value (urlInput s))) ->
  handleSubmit_of validateUrl startDownload s
  = showInputError "Please enter a YouTube link" s.
Proof.
  intros Hp Hblank. unfold handleSubmit_of.
  rewrite Hp, (trim_blank _ Hblank). reflexivity.
Qed.

(** ** The requests *)

Lemma encode_unit_safe (c : ascii) : forallb query_safe (encode_unit c) = true.
Proof.
  revert c. apply forall_code_units. vm_compute. reflexivity.
Qed.

Lemma encodeURIComponent_safe (url : string) :
  Forall (fun c => query_safe c = true) (chars (encodeURIComponent url)).
Proof.
  unfold encodeURIComponent. rewrite chars_text.
  induction (chars url) as [|c l IH]; [constructor|].
  simpl. apply Forall_app. split; [|exact IH].
  apply Forall_forall. apply forallb_forall. apply encode_unit_safe.
Qed.

(** X6. The link travels as one opaque query value: in the request of
    [fetchVideoInfo] and in the address of the frame of [triggerDownload],
    what follows [url=] holds unreserved characters and percent escapes
    only, hence none of the characters that end or split a query value. *)
Theorem request_query_is_safe net endpoint (url : string)
    (title : option string) (s : state) :
  let q := encodeURIComponent url in
  Forall (fun c => query_safe c = true) (chars q)
  /\ (forall c, In c (chars "&=#?/+ ") -> ~ In c (chars q))
  /\ trace (snd (App.fetchVideoInfo net url s))
     = (trace s ++ [Fetch (String.append "/api/info?url=" q)])%list
  /\ trace (snd (Single.fetchVideoInfo net url s))
     = (trace s ++ [Fetch (String.append "/api/info?url=" q)])%list
  /\ map frame_src (body_frames (snd (App.triggerDownload endpoint url title s)))
     = (map frame_src (body_frames s)
          ++ [String.append "/api/download?url=" q])%list
  /\ map frame_src (body_frames (snd (Single.triggerDownload endpoint url title s)))
     = (map frame_src (body_frames s)
          ++ [String.append "/api/download?url=" q])%list.
Proof.
  cbv zeta. pose proof (encodeURIComponent_safe url) as Hsafe.
  split; [exact Hsafe|]. split; [|split; [|split; [|split]]].
  - intros c Hc Hin. rewrite Forall_forall in Hsafe.
    specialize (Hsafe c Hin). cbn in Hc.
    destruct Hc as [<- | [<- | [<- | [<- | [<- | [<- | [<- | []]]]]]]];
      vm_compute in Hsafe; discriminate.
  - rewrite fetchVideoInfo_settles. reflexivity.
  - rewrite single_fetchVideoInfo_settles. reflexivity.
  - cbn. rewrite map_app. reflexivity.
  - cbn. rewrite map_app. reflexivity.
Qed.

Lemma unescape_encode_unit (c : ascii) (rest : list ascii) :
  unescape (encode_unit c ++ rest) = option_map (cons c) (unescape rest).
Proof.
  destruct c as [[] [] [] [] [] [] [] []]; reflexivity.
Qed.

Lemma unescape_encode (l : list ascii) :
  unescape (flat_map encode_unit l) = Some l.
Proof.
  induction l as [|c l IH]; [reflexivity|].
  cbn [flat_map]. rewrite unescape_encode_unit, IH. reflexivity.
Qed.

Lemma text_injective (a b : list ascii) : text a = text b -> a = b.
Proof.
  intros H. rewrite <- (chars_text a), <- (chars_text b), H. reflexivity.
Qed.

Lemma chars_injective (a b : string) : chars a = chars b -> a = b.
Proof.
  intros H. unfold chars in H.
  rewrite <- (string_of_list_ascii_of_string a),
          <- (string_of_list_ascii_of_string b), H.
  reflexivity.
Qed.

(** X7. The request determines the link: two links give the same request
    of [fetchVideoInfo] only when they are the same link. *)
Theorem info_request_injective (u v : string) :
  info_request u = info_request v -> u = v.
Proof.
  unfold info_request. intros H.
  apply (f_equal chars) in H. rewrite !chars_app in H.
  apply app_inv_head in H. unfold encodeURIComponent in H.
  rewrite !chars_text in H.
  apply chars_injective.
  assert (Hu := unescape_encode (chars u)). rewrite H in Hu.
  rewrite unescape_encode in Hu. injection Hu as Hu. symmetry. exact Hu.
Qed.

(** ** The metadata fetch of the second copy *)

(** X8. The two copies of [fetchVideoInfo] issue the same single request and
    return the same result however it settles, but for a body that does
    not parse: there the second copy throws the parser's exception with its
    message and [static/js/app.js] the generic server error. *)
Theorem fetchVideoInfo_copies_agree net (url : string) (s : state) :
  snd (Single.fetchVideoInfo net url s) = snd (App.fetchVideoInfo net url s)
  /\ ((forall ok why,
          net (sent s) <> Responded {| ok := ok; body := Malformed why |}) ->
      fst (Single.fetchVideoInfo net url s) = fst (App.fetchVideoInfo net url s))
  /\ (forall ok why,
         net (sent s) = Responded {| ok := ok; body := Malformed why |} ->
         fst (Single.fetchVideoInfo net url s)
         = Throw {| name := SyntaxError; message := why |}
         /\ fst (App.fetchVideoInfo net url s)
            = Throw (new_Error "Server error. Please try again.")).
Proof.
  rewrite single_fetchVideoInfo_settles, fetchVideoInfo_settles. cbn [fst snd].
  split; [reflexivity|]. split.
  - intros H. destruct (net (sent s)) as [why | [ok0 [why | [data | |]]]];
      try reflexivity.
    exfalso. exact (H ok0 why eq_refl).
  - intros ok0 why ->. destruct ok0; split; reflexivity.
Qed.

(** ** The end of an attempt *)


(** The two ends of an attempt, for each copy. *)
Lemma app_attempt_end net endpoint (url : string) (s : state) :
  failed_end s (snd (App.startDownload net endpoint url s))
  \/ succeeded_end 120000 cb_remove_if_attached endpoint url s
       (snd (App.startDownload net endpoint url s)).
Proof.
  pose proof (app_loop_frame net url (prelude s)) as Hframe.
  cbv zeta in Hframe.
  destruct Hframe as (_ & _ & _ & _ & Hst & _ & _ & Hfr & Hfc & Htm).
  rewrite app_startDownload_cases.
  destruct (App.fetch_with_retry net url 2 None None (prelude s))
    as [[got le] s1]; destruct (usable got) as [info|]; cbn [snd] in *.
  - right. exists info. unfold long_video_notice, download_request.
    destruct (num_gt _ _); cbn; rewrite ?Hst, ?Hfr, ?Hfc, ?Htm; cbn;
      rewrite <- ?app_assoc; repeat split; auto.
  - left. unfold failed_end. cbn. rewrite Hfr, Hfc, Htm.
    repeat split; try reflexivity.
    destruct le as [e|]; cbn; [destruct (message e)|]; discriminate.
Qed.

Lemma single_attempt_end net endpoint (url : string) (s : state) :
  failed_end s (snd (Single.startDownload net endpoint url s))
  \/ succeeded_end 60000 cb_remove endpoint url s
       (snd (Single.startDownload net endpoint url s)).
Proof.
  rewrite single_startDownload_cases. cbv zeta.
  destruct (single_outcome _) as [info | e].
  - right. exists info. unfold long_video_notice, download_request.
    destruct (num_gt _ _); cbn; rewrite <- ?app_assoc; repeat split; auto.
  - left. unfold failed_end. cbn.
    repeat split; try reflexivity. destruct (message e); discriminate.
Qed.


(** ** Invariants of the page under its events *)

Lemma after_keeps (handleSubmit : state -> state) (I : whole_page -> Prop) :
  (forall e p, I p -> I (on handleSubmit e p)) ->
  forall es p, I p -> I (after handleSubmit es p).
Proof.
  intros Hstep es. unfold after.
  induction es as [|e es IH]; intros p Hp; [exact Hp|].
  cbn [fold_left]. apply IH, Hstep, Hp.
Qed.

Lemma tick_turn (s : state) : tick s = option_map snd (turn s).
Proof.
  unfold tick, turn. destruct (earliest (timers s)) as [[due cb]|]; reflexivity.
Qed.

(** What an attempt leaves of the input alone, for each copy. *)
Lemma app_attempt_keeps_input net endpoint (url : string) (s : state) :
  let s' := snd (App.startDownload net endpoint url s) in
  in_value (urlInput s') = in_value (urlInput s)
  /\ in_error (urlInput s') = in_error (urlInput s)
  /\ inputError s' = inputError s
  /\ inputHint_display s' = inputHint_display s.
Proof.
  pose proof (app_loop_frame net url (prelude s)) as Hframe.
  cbv zeta in Hframe. destruct Hframe as (_ & Hin & _ & _ & _ & Hh & He & _).
  cbv zeta. rewrite app_startDownload_cases.
  destruct (App.fetch_with_retry net url 2 None None (prelude s))
    as [[got le] s1]; destruct (usable got) as [info|]; cbn [snd] in Hin, Hh, He |- *.
  - unfold long_video_notice. destruct (num_gt _ _); cbn;
      rewrite Hin, Hh, He; repeat split.
  - cbn. rewrite Hin, Hh, He. repeat split.
Qed.

Lemma single_attempt_keeps_input net endpoint (url : string) (s : state) :
  let s' := snd (Single.startDownload net endpoint url s) in
  in_value (urlInput s') = in_value (urlInput s)
  /\ in_error (urlInput s') = in_error (urlInput s)
  /\ inputError s' = inputError s
  /\ inputHint_display s' = inputHint_display s.
Proof.
  cbv zeta. rewrite single_startDownload_cases. cbv zeta.
  destruct (single_outcome _) as [info | e].
  - unfold long_video_notice. destruct (num_gt _ _); repeat split.
  - repeat split.
Qed.


Lemma fire_keeps_controls (cb : callback) (s : state) :
  let s' := snd (fire cb s) in
  isProcessing s' = isProcessing s
  /\ in_value (urlInput s') = in_value (urlInput s)
  /\ in_disabled (urlInput s') = in_disabled (urlInput s)
  /\ downloadBtn s' = downloadBtn s
  /\ requests (trace s') = requests (trace s).
Proof.
  destruct cb as [| | f | f]; cbn.
  - repeat split. rewrite requests_app. apply app_nil_r.
  - repeat split.
  - destruct (attached f s) eqn:Ha; [|repeat split].
    unfold removeChild. rewrite Ha. repeat split.
  - unfold removeChild. destruct (attached f s); repeat split.
Qed.

Lemma handleInputChange_core (p : whole_page) :
  core (handleInputChange p)
  = (if (0 <? String.length (in_value (urlInput (core p))))%nat
     then hideStatus (clearInputError (core p))
     else clearInputError (core p))
  /\ clearBtn_visible (handleInputChange p)
     = (0 <? String.length (in_value (urlInput (core p))))%nat
  /\ paste_timers (handleInputChange p) = paste_timers p
  /\ urlInput_focused (handleInputChange p) = urlInput_focused p.
Proof.
  unfold handleInputChange.
  destruct (0 <? String.length (in_value (urlInput (core p))))%nat;
    repeat split.
Qed.

Lemma handleInputChange_keeps (p : whole_page) :
  let s := core p in
  let s' := core (handleInputChange p) in
  isProcessing s' = isProcessing s
  /\ in_value (urlInput s') = in_value (urlInput s)
  /\ in_disabled (urlInput s') = in_disabled (urlInput s)
  /\ downloadBtn s' = downloadBtn s
  /\ trace s' = trace s
  /\ timers s' = timers s
  /\ body_frames s' = body_frames s
  /\ frames_created s' = frames_created s.
Proof.
  cbv zeta. destruct (handleInputChange_core p) as (-> & _).
  destruct (0 <? String.length (in_value (urlInput (core p))))%nat;
    repeat split.
Qed.

Lemma tick_keeps_controls (s s' : state) :
  tick s = Some s' ->
  isProcessing s' = isProcessing s
  /\ in_value (urlInput s') = in_value (urlInput s)
  /\ in_disabled (urlInput s') = in_disabled (urlInput s)
  /\ downloadBtn s' = downloadBtn s
  /\ requests (trace s') = requests (trace s).
Proof.
  unfold tick. destruct (earliest (timers s)) as [[due cb]|]; [|discriminate].
  intros H. injection H as <-.
  exact (fire_keeps_controls cb _).
Qed.




Lemma handleSubmit_keeps_value (validateUrl : string -> bool)
    (startDownload : string -> M unit) :
  (forall url s, in_value (urlInput (snd (startDownload url s)))
                 = in_value (urlInput s)) ->
  forall s, in_value (urlInput (handleSubmit_of validateUrl startDownload s))
            = in_value (urlInput s).
Proof.
  intros Hsd s. unfold handleSubmit_of.
  destruct (isProcessing s); [reflexivity|].
  destruct (trim (in_value (urlInput s))) as [|c u]; [reflexivity|].
  destruct (validateUrl (String c u)); cbn [negb]; [apply Hsd | reflexivity].
Qed.

Lemma on_clear_button (handleSubmit : state -> state) :
  (forall s, in_value (urlInput (handleSubmit s)) = in_value (urlInput s)) ->
  forall e p, clear_button_ok p -> clear_button_ok (on handleSubmit e p).
Proof.
  intros Hsub e p Hp. unfold clear_button_ok in *.
  destruct e as [| value | | | |]; cbn [on].
  - cbn. rewrite Hsub. exact Hp.
  - destruct (handleInputChange_core (on_core (type_in value) p)) as (_ & -> & _).
    destruct (handleInputChange_keeps (on_core (type_in value) p))
      as (_ & -> & _).
    reflexivity.
  - exact Hp.
  - reflexivity.
  - destruct (tick (core p)) as [s'|] eqn:Ht; [|exact Hp].
    apply tick_keeps_controls in Ht. destruct Ht as (_ & H1 & _).
    cbn. rewrite H1. exact Hp.
  - destruct (paste_timers p) as [|due rest]; [exact Hp|].
    match goal with |- clearBtn_visible (handleInputChange ?q) = _ =>
      destruct (handleInputChange_core q) as (_ & -> & _);
      destruct (handleInputChange_keeps q) as (_ & -> & _) end.
    reflexivity.
Qed.

(** X12. Once the clear button shows exactly when the input holds text, it
    does so after every event: [handleInputChange] and [clearInput] keep
    the two in step and nothing else writes the text of the input. *)
Theorem clear_button_follows_text net endpoint (es : list event)
    (p : whole_page) :
  clear_button_ok p ->
  clear_button_ok (after (App.handleSubmit net endpoint) es p)
  /\ clear_button_ok (after (Single.handleSubmit net endpoint) es p).
Proof.
  intros Hp. split.
  - apply after_keeps; [|exact Hp]. apply on_clear_button.
    apply handleSubmit_keeps_value. intros url s.
    apply (app_attempt_keeps_input net endpoint url s).
  - apply after_keeps; [|exact Hp]. apply on_clear_button.
    apply handleSubmit_keeps_value. intros url s.
    apply (single_attempt_keeps_input net endpoint url s).
Qed.

(** X13. No event but a submission reaches the network: editing, pasting,
    clearing and the timers leave the requests as they are, whatever the
    variant. *)
Theorem only_submit_requests (handleSubmit : state -> state)
    (e : event) (p : whole_page) :
  e <> Submit ->
  requests (trace (core (on handleSubmit e p))) = requests (trace (core p)).
Proof.
  intros He. destruct e as [| value | | | |]; cbn [on].
  - contradiction.
  - destruct (handleInputChange_keeps (on_core (type_in value) p))
      as (_ & _ & _ & _ & -> & _).
    reflexivity.
  - reflexivity.
  - reflexivity.
  - destruct (tick (core p)) as [s'|] eqn:Ht; [|reflexivity].
    apply tick_keeps_controls in Ht. cbn. apply Ht.
  - destruct (paste_timers p) as [|due rest]; [reflexivity|].
    match goal with |- requests (trace (core (handleInputChange ?q))) = _ =>
      destruct (handleInputChange_keeps q) as (_ & _ & _ & _ & -> & _) end.
    reflexivity.
Qed.

(** ** The frames and their removal *)

Lemma removal_targets_app (a b : list (Z * callback)) :
  removal_targets (a ++ b) = (removal_targets a ++ removal_targets b)%list.
Proof.
  induction a as [|[due cb] a IH]; [reflexivity|].
  destruct cb; cbn; rewrite IH; reflexivity.
Qed.

(** The timer that [tick] fires is one of the pending ones, and it is the
    one that leaves the queue. *)
Lemma earliest_split (ts : list (Z * callback)) (due : Z) (cb : callback) :
  earliest ts = Some (due, cb) ->
  exists a b, ts = (a ++ (due, cb) :: b)%list
              /\ drop_timer due ts = (a ++ b)%list.
Proof.
  revert due cb. induction ts as [|t ts IH]; intros due cb; [discriminate|].
  cbn [earliest]. destruct (earliest ts) as [u|] eqn:Hu.
  - destruct (fst u <? fst t)%Z eqn:Hlt.
    + intros H. injection H as ->. 
      destruct (IH due cb eq_refl) as (a & b & Hts & Hdrop).
      exists (t :: a), b. cbn [drop_timer fst] in *. split.
      * rewrite Hts. reflexivity.
      * apply Z.ltb_lt in Hlt.
        destruct (fst t =? due)%Z eqn:He; [apply Z.eqb_eq in He; lia|].
        rewrite Hdrop. reflexivity.
    + intros H. injection H as ->. exists [], ts. cbn.
      rewrite Z.eqb_refl. auto.
  - intros H. injection H as ->. exists [], ts. cbn.
    rewrite Z.eqb_refl. auto.
Qed.

Lemma attached_after_filter (f g : nat) (l : list frame) :
  g <> f ->
  existsb (fun fr => (frame_id fr =? g)%nat)
          (filter (fun fr => negb (frame_id fr =? f)%nat) l)
  = existsb (fun fr => (frame_id fr =? g)%nat) l.
Proof.
  intros Hgf. induction l as [|x l IH]; [reflexivity|].
  cbn. destruct (frame_id x =? f)%nat eqn:Ef; cbn.
  - apply Nat.eqb_eq in Ef.
    destruct (frame_id x =? g)%nat eqn:Eg; [apply Nat.eqb_eq in Eg; lia|].
    exact IH.
  - rewrite IH. reflexivity.
Qed.

Lemma removals_ok_ext (s s' : state) :
  timers s' = timers s -> body_frames s' = body_frames s ->
  frames_created s' = frames_created s ->
  removals_ok s -> removals_ok s'.
Proof.
  intros Ht Hf Hc (H1 & H2 & H3). unfold removals_ok, attached.
  rewrite Ht, Hf, Hc. auto.
Qed.

(** A turn of the event loop: the callback returns, and the frames to
    remove stay in order. *)
Lemma turn_removals_ok (s s' : state) (r : result unit) :
  removals_ok s -> turn s = Some (r, s') -> r = Ok tt /\ removals_ok s'.
Proof.
  intros (H1 & H2 & H3). unfold turn.
  destruct (earliest (timers s)) as [[due cb]|] eqn:He; [|discriminate].
  destruct (earliest_split _ _ _ He) as (a & b & Hts & Hdrop).
  rewrite Hdrop. intros Hfire.
  rewrite Hts, removal_targets_app in H1, H2.
  assert (Hrest : forall f, In f (removal_targets (a ++ b)) ->
                            In f (removal_targets a ++ removal_targets b)).
  { intros f. rewrite removal_targets_app. auto. }
  assert (Hkeep : forall s1,
             timers s1 = (a ++ b)%list -> body_frames s1 = body_frames s ->
             frames_created s1 = frames_created s ->
             NoDup (removal_targets a ++ removal_targets b) ->
             (forall f, In f (removal_targets a ++ removal_targets b) ->
                        f < frames_created s) ->
             removals_ok s1).
  { intros s1 Ht Hf Hc Hnd Hlt. unfold removals_ok, attached.
    rewrite Ht, Hf, Hc, removal_targets_app. repeat split; auto.
    intros d f Hin. apply (H3 d f). rewrite Hts.
    apply in_app_or in Hin. apply in_or_app.
    destruct Hin; [left | right; right]; assumption. }
  assert (Hremoved : forall f s1,
             timers s1 = (a ++ b)%list ->
             body_frames s1
             = filter (fun fr => negb (frame_id fr =? f)%nat) (body_frames s) ->
             frames_created s1 = frames_created s ->
             NoDup (removal_targets a ++ f :: removal_targets b) ->
             (forall g, In g (removal_targets a ++ f :: removal_targets b) ->
                        g < frames_created s) ->
             removals_ok s1).
  { intros f s1 Ht Hf Hc Hnd Hlt. unfold removals_ok, attached.
    rewrite Ht, Hf, Hc, removal_targets_app. repeat split.
    - intros g Hg. apply Hlt. apply in_app_or in Hg. apply in_or_app.
      destruct Hg; [left | right; right]; assumption.
    - apply NoDup_remove_1 in Hnd. exact Hnd.
    - intros d g Hin. rewrite attached_after_filter.
      + apply (H3 d g). rewrite Hts. apply in_app_or in Hin. apply in_or_app.
        destruct Hin; [left | right; right]; assumption.
      + intros ->. apply NoDup_remove_2 in Hnd. apply Hnd.
        apply in_app_or in Hin. apply in_or_app.
        destruct Hin as [Hin | Hin]; [left | right].
        * clear - Hin. induction a as [|[d0 c0] a IH]; [contradiction|].
          destruct Hin as [Heq | Hin].
          -- injection Heq as -> ->. left. reflexivity.
          -- destruct c0; cbn; auto.
        * clear - Hin. induction b as [|[d0 c0] b IH]; [contradiction|].
          destruct Hin as [Heq | Hin].
          -- injection Heq as -> ->. left. reflexivity.
          -- destruct c0; cbn; auto. }
  destruct cb as [| | f | f]; cbn in Hfire, H1, H2.
  - injection Hfire as <- <-. split; [reflexivity|].
    apply Hkeep; try reflexivity; assumption.
  - injection Hfire as <- <-. split; [reflexivity|].
    apply Hkeep; try reflexivity; assumption.
  - unfold attached, removeChild, attached in Hfire. cbn in Hfire.
    destruct (existsb _ (body_frames s)) eqn:Ha; cbn in Hfire.
    + injection Hfire as <- <-. split; [reflexivity|].
      apply (Hremoved f); try reflexivity; assumption.
    + injection Hfire as <- <-. split; [reflexivity|].
      apply Hkeep; try reflexivity.
      * apply NoDup_remove_1 in H2. exact H2.
      * intros g Hg. apply H1. apply in_app_or in Hg. apply in_or_app.
        destruct Hg; [left | right; right]; assumption.
  - assert (Ha : attached f s = true).
    { apply (H3 due f). rewrite Hts. apply in_or_app. right. left. reflexivity. }
    unfold removeChild, attached in Hfire, Ha. cbn in Hfire.
    rewrite Ha in Hfire. injection Hfire as <- <-. split; [reflexivity|].
    apply (Hremoved f); try reflexivity; assumption.
Qed.

Lemma failed_removals_ok (s s' : state) :
  removals_ok s -> failed_end s s' -> removals_ok s'.
Proof.
  intros Hs (_ & _ & _ & _ & _ & _ & Ht & Hf & Hc).
  exact (removals_ok_ext s s' Ht Hf Hc Hs).
Qed.

Lemma succeeded_removals_ok (removal : Z) (remove : nat -> callback)
    endpoint (url : string) (s s' : state) :
  remove = cb_remove \/ remove = cb_remove_if_attached ->
  removals_ok s -> succeeded_end removal remove endpoint url s s' ->
  removals_ok s'.
Proof.
  intros Hremove (H1 & H2 & H3) (info & _ & _ & _ & Ht & Hf & Hc).
  assert (Htargets : removal_targets (timers s')
                     = (removal_targets (timers s) ++ [frames_created s])%list).
  { rewrite Ht, removal_targets_app.
    destruct Hremove as [-> | ->]; reflexivity. }
  unfold removals_ok, attached. rewrite Htargets, Hf, Hc. repeat split.
  - intros f Hin. apply in_app_or in Hin.
    destruct Hin as [Hin | [<- | []]]; [|lia].
    specialize (H1 f Hin). lia.
  - apply NoDup_app.
    + exact H2.
    + constructor; [intros [] | constructor].
    + intros f Hin [<- | []]. specialize (H1 _ Hin). lia.
  - intros due f Hin. rewrite Ht in Hin. rewrite existsb_app.
    apply in_app_or in Hin. destruct Hin as [Hin | Hin].
    + specialize (H3 due f Hin). unfold attached in H3. rewrite H3. reflexivity.
    + assert (f = frames_created s) as ->.
      { destruct Hin as [Heq | [Heq | [Heq | []]]]; try discriminate.
        destruct Hremove as [-> | ->]; [|discriminate].
        injection Heq as _ Heq. symmetry. exact Heq. }
      cbn. rewrite Nat.eqb_refl. apply orb_true_r.
Qed.

Lemma handleSubmit_removals_ok (validateUrl : string -> bool)
    (startDownload : string -> M unit) :
  (forall url s, removals_ok s -> removals_ok (snd (startDownload url s))) ->
  forall s, removals_ok s ->
            removals_ok (handleSubmit_of validateUrl startDownload s).
Proof.
  intros Hsd s Hs. unfold handleSubmit_of.
  destruct (isProcessing s); [exact Hs|].
  destruct (trim (in_value (urlInput s))) as [|c u];
    [exact (removals_ok_ext s _ eq_refl eq_refl eq_refl Hs)|].
  destruct (validateUrl (String c u)); cbn [negb];
    [apply Hsd, Hs | exact (removals_ok_ext s _ eq_refl eq_refl eq_refl Hs)].
Qed.

Lemma on_removals_ok (handleSubmit : state -> state) :
  (forall s, removals_ok s -> removals_ok (handleSubmit s)) ->
  forall e p, removals_ok (core p) -> removals_ok (core (on handleSubmit e p)).
Proof.
  intros Hsub e p Hp. destruct e as [| value | | | |]; cbn [on].
  - apply Hsub, Hp.
  - destruct (handleInputChange_keeps (on_core (type_in value) p))
      as (_ & _ & _ & _ & _ & H1 & H2 & H3).
    exact (removals_ok_ext _ _ H1 H2 H3 Hp).
  - exact Hp.
  - exact (removals_ok_ext (core p) _ eq_refl eq_refl eq_refl Hp).
  - rewrite tick_turn. destruct (turn (core p)) as [[r s']|] eqn:Ht;
      [|exact Hp].
    exact (proj2 (turn_removals_ok _ _ _ Hp Ht)).
  - destruct (paste_timers p) as [|due rest]; [exact Hp|].
    match goal with |- removals_ok (core (handleInputChange ?q)) =>
      destruct (handleInputChange_keeps q)
        as (_ & _ & _ & _ & _ & H1 & H2 & H3) end.
    exact (removals_ok_ext _ _ H1 H2 H3 Hp).
Qed.

(** X14. No callback of a timer ever throws.  From a page whose pending
    removals are in order (each frame at most once, the frames of the
    unguarded removals attached), every sequence of events leads to a page
    of the same kind, and the callback that fires next returns normally:
    the [removeChild] of the second copy, which comes without the
    [parentNode] check of [static/js/app.js], always finds its frame. *)
Theorem timer_callbacks_never_throw net endpoint (es : list event)
    (p : whole_page) :
  removals_ok (core p) ->
  (let q := after (App.handleSubmit net endpoint) es p in
   removals_ok (core q)
   /\ forall r s', turn (core q) = Some (r, s') -> r = Ok tt)
  /\ (let q := after (Single.handleSubmit net endpoint) es p in
      removals_ok (core q)
      /\ forall r s', turn (core q) = Some (r, s') -> r = Ok tt).
Proof.
  intros Hp.
  assert (Happ : removals_ok
                   (core (after (App.handleSubmit net endpoint) es p))).
  { apply (after_keeps _ (fun q => removals_ok (core q))); [|exact Hp].
    apply on_removals_ok, handleSubmit_removals_ok. intros url s Hs.
    destruct (app_attempt_end net endpoint url s) as [Hf | Hd].
    - exact (failed_removals_ok _ _ Hs Hf).
    - refine (succeeded_removals_ok _ _ _ _ _ _ _ Hs Hd). right. reflexivity. }
  assert (Hsingle : removals_ok
                      (core (after (Single.handleSubmit net endpoint) es p))).
  { apply (after_keeps _ (fun q => removals_ok (core q))); [|exact Hp].
    apply on_removals_ok, handleSubmit_removals_ok. intros url s Hs.
    destruct (single_attempt_end net endpoint url s) as [Hf | Hd].
    - exact (failed_removals_ok _ _ Hs Hf).
    - refine (succeeded_removals_ok _ _ _ _ _ _ _ Hs Hd). left. reflexivity. }
  cbv zeta. split; (split; [assumption|]); intros r s' Ht.
  - exact (proj1 (turn_removals_ok _ _ _ Happ Ht)).
  - exact (proj1 (turn_removals_ok _ _ _ Hsingle Ht)).
Qed.

(** ** The timers of a finished attempt *)

Lemma tick_earliest (s : state) (due : Z) (cb : callback)
    (rest : list (Z * callback)) :
  earliest (timers s) = Some (due, cb) ->
  drop_timer due (timers s) = rest ->
  tick s = Some (snd (fire cb (set_now (Z.max (now s) due)
                                 (set_timers rest s)))).
Proof. intros He Hd. unfold tick. rewrite He, Hd. reflexivity. Qed.

Lemma tick_fires (s : state) (due : Z) (cb : callback)
    (rest : list (Z * callback)) :
  earliest (timers s) = Some (due, cb) ->
  drop_timer due (timers s) = rest ->
  (now s <= due)%Z ->
  tick s = Some (snd (fire cb (set_now due (set_timers rest s)))).
Proof.
  intros He Hd Hle. rewrite (tick_earliest s due cb rest He Hd).
  replace (Z.max (now s) due) with due by lia. reflexivity.
Qed.

Lemma earliest_of_three (n removal : Z) (rm : callback) :
  (4000 < removal)%Z ->
  earliest [((n + removal)%Z, rm); ((n + 500)%Z, cb_success);
            ((n + 4000)%Z, cb_reset)]
  = Some ((n + 500)%Z, cb_success)
  /\ drop_timer (n + 500)
       [((n + removal)%Z, rm); ((n + 500)%Z, cb_success);
        ((n + 4000)%Z, cb_reset)]
     = [((n + removal)%Z, rm); ((n + 4000)%Z, cb_reset)].
Proof.
  intros H.
  assert (E1 : (n + 4000 <? n + 500)%Z = false) by (apply Z.ltb_ge; lia).
  assert (E2 : (n + 500 <? n + removal)%Z = true) by (apply Z.ltb_lt; lia).
  assert (E3 : (n + removal =? n + 500)%Z = false) by (apply Z.eqb_neq; lia).
  split.
  - cbn [earliest fst]. rewrite E1. cbn [fst]. rewrite E2. reflexivity.
  - cbn [drop_timer fst]. rewrite E3, Z.eqb_refl. reflexivity.
Qed.

Lemma earliest_of_two (n removal : Z) (rm : callback) :
  (4000 < removal)%Z ->
  earliest [((n + removal)%Z, rm); ((n + 4000)%Z, cb_reset)]
  = Some ((n + 4000)%Z, cb_reset)
  /\ drop_timer (n + 4000)
       [((n + removal)%Z, rm); ((n + 4000)%Z, cb_reset)]
     = [((n + removal)%Z, rm)].
Proof.
  intros H.
  assert (E4 : (n + 4000 <? n + removal)%Z = true) by (apply Z.ltb_lt; lia).
  assert (E5 : (n + removal =? n + 4000)%Z = false) by (apply Z.eqb_neq; lia).
  split.
  - cbn [earliest fst]. rewrite E4. reflexivity.
  - cbn [drop_timer fst]. rewrite E5, Z.eqb_refl. reflexivity.
Qed.

Lemma earliest_of_one (due : Z) (cb : callback) :
  earliest [(due, cb)] = Some (due, cb) /\ drop_timer due [(due, cb)] = [].
Proof.
  split; [reflexivity|]. cbn [drop_timer fst]. rewrite Z.eqb_refl.
  reflexivity.
Qed.

(** What the callbacks of the success path do to the fields that the
    next turns read. *)
Lemma fire_success_fields (s : state) :
  let s1 := snd (fire cb_success s) in
  timers s1 = timers s /\ now s1 = now s /\ body_frames s1 = body_frames s
  /\ in_value (urlInput s1) = in_value (urlInput s)
  /\ songInfo s1 = songInfo s
  /\ status s1 = started_status
  /\ progress_hidden (progress s1) = true.
Proof. repeat split. Qed.

Lemma fire_reset_fields (s : state) :
  let s1 := snd (fire cb_reset s) in
  timers s1 = timers s /\ now s1 = now s /\ body_frames s1 = body_frames s
  /\ in_value (urlInput s1) = in_value (urlInput s)
  /\ status_hidden (status s1) = true
  /\ song_hidden (songInfo s1) = true
  /\ progress_hidden (progress s1) = true.
Proof. repeat split. Qed.

Lemma fire_remove_fields (remove : nat -> callback) (f : nat) (s : state) :
  remove = cb_remove \/ remove = cb_remove_if_attached ->
  attached f s = true ->
  let s1 := snd (fire (remove f) s) in
  timers s1 = timers s /\ now s1 = now s /\ attached f s1 = false
  /\ in_value (urlInput s1) = in_value (urlInput s).
Proof.
  intros [-> | ->] Ha; cbv zeta; unfold fire, removeChild; rewrite Ha;
    cbn [snd]; unfold attached; cbn; rewrite detached_after_remove;
    repeat split.
Qed.

Lemma done_timers_in_order (removal : Z) (remove : nat -> callback)
    endpoint (url : string) (s s' : state) :
  remove = cb_remove \/ remove = cb_remove_if_attached ->
  (4000 < removal)%Z ->
  timers s = [] ->
  succeeded_end removal remove endpoint url s s' ->
  unwinds removal (frames_created s) s'.
Proof.
  intros Hremove Hlong Hnone (info & _ & _ & _ & Ht & Hf & _).
  rewrite Hnone in Ht. cbn [app] in Ht.
  unfold unwinds.
  remember (now s') as n eqn:Hn.
  assert (Hatt : attached (frames_created s) s' = true).
  { unfold attached. rewrite Hf, existsb_app. cbn. rewrite Nat.eqb_refl.
    apply orb_true_r. }
  (* first turn: the success status *)
  destruct (earliest_of_three n removal (remove (frames_created s)) Hlong)
    as (He1 & Hd1).
  pose proof (tick_fires s' _ _ _ (eq_trans (f_equal earliest Ht) He1)
                (eq_trans (f_equal (drop_timer _) Ht) Hd1)) as T1.
  specialize (T1 ltac:(lia)).
  match type of T1 with _ = Some ?x => remember x as s1 eqn:Hs1 end.
  destruct (fire_success_fields
              (set_now (n + 500)
                 (set_timers [((n + removal)%Z, remove (frames_created s));
                              ((n + 4000)%Z, cb_reset)] s')))
    as (A1 & A2 & A3 & A4 & _ & A5 & A6).
  cbv zeta in A1, A2, A3, A4. rewrite <- Hs1 in A1, A2, A3, A4, A5, A6.
  cbn [timers now body_frames urlInput set_now set_timers] in A1, A2, A3, A4.
  clear Hs1.
  (* second turn: the reset *)
  destruct (earliest_of_two n removal (remove (frames_created s)) Hlong)
    as (He2 & Hd2).
  pose proof (tick_fires s1 _ _ _ (eq_trans (f_equal earliest A1) He2)
                (eq_trans (f_equal (drop_timer _) A1) Hd2)) as T2.
  specialize (T2 ltac:(lia)).
  match type of T2 with _ = Some ?x => remember x as s2 eqn:Hs2 end.
  destruct (fire_reset_fields
              (set_now (n + 4000)
                 (set_timers [((n + removal)%Z, remove (frames_created s))] s1)))
    as (B1 & B2 & B3 & B4 & B5 & B6 & B7).
  cbv zeta in B1, B2, B3, B4. rewrite <- Hs2 in B1, B2, B3, B4, B5, B6, B7.
  cbn [timers now body_frames urlInput set_now set_timers] in B1, B2, B3, B4.
  clear Hs2.
  assert (Hatt2 : attached (frames_created s) s2 = true).
  { unfold attached in *. rewrite B3, A3. exact Hatt. }
  (* third turn: the removal of the frame *)
  destruct (earliest_of_one (n + removal) (remove (frames_created s)))
    as (He3 & Hd3).
  pose proof (tick_fires s2 _ _ _ (eq_trans (f_equal earliest B1) He3)
                (eq_trans (f_equal (drop_timer _) B1) Hd3)) as T3.
  specialize (T3 ltac:(lia)).
  match type of T3 with _ = Some ?x => remember x as s3 eqn:Hs3 end.
  destruct (fire_remove_fields remove (frames_created s)
              (set_now (n + removal) (set_timers [] s2)) Hremove Hatt2)
    as (G1 & G2 & G3 & G4).
  rewrite <- Hs3 in G1, G2, G3, G4.
  cbn [timers now urlInput set_now set_timers] in G1, G2, G4.
  clear Hs3.
  exists s1, s2, s3.
  repeat split; try assumption; try congruence.
  unfold tick. rewrite G1. reflexivity.
Qed.

(** X15. The timers of a finished attempt fire in a fixed order.  When no
    timer was pending at its start and the attempt did not fail, three
    turns of the event loop empty the queue: the success status replaces
    the progress 500 ms after the completion, the reset hides the panels
    4000 ms after it while the frame stays attached and the typed link
    stays in the input, and the frame is removed last, 120000 ms after the
    completion in [static/js/app.js] and 60000 ms in the second copy. *)
Theorem done_attempt_unwinds net endpoint (url : string) (s : state) :
  timers s = [] ->
  (song_hidden (songInfo (snd (App.startDownload net endpoint url s))) = false
   -> unwinds 120000 (frames_created s)
        (snd (App.startDownload net endpoint url s)))
  /\ (song_hidden (songInfo (snd (Single.startDownload net endpoint url s)))
      = false
      -> unwinds 60000 (frames_created s)
           (snd (Single.startDownload net endpoint url s))).
Proof.
  intros Hnone. split; intros Hshown.
  - destruct (app_attempt_end net endpoint url s) as [Hfail | Hdone].
    + destruct Hfail as (_ & _ & _ & _ & _ & Hsong & _). congruence.
    + apply (done_timers_in_order 120000 cb_remove_if_attached endpoint url s);
        [right; reflexivity | lia | exact Hnone | exact Hdone].
  - destruct (single_attempt_end net endpoint url s) as [Hfail | Hdone].
    + destruct Hfail as (_ & _ & _ & _ & _ & Hsong & _). congruence.
    + apply (done_timers_in_order 60000 cb_remove endpoint url s);
        [left; reflexivity | lia | exact Hnone | exact Hdone].
Qed.

(** X16. Timers are never cancelled.  In the second copy, when an attempt
    that started with no timer pending is done and the next attempt fails
    before the first of those timers is due, the next turn of the event
    loop replaces the error status of the failure by the success status of
    the earlier attempt, and the song panel stays hidden. *)
Theorem stale_success_replaces_error net endpoint (url : string)
    net' endpoint' (url' : string) (s : state) :
  let s1 := snd (Single.startDownload net endpoint url s) in
  let s2 := snd (Single.startDownload net' endpoint' url' s1) in
  timers s = [] ->
  song_hidden (songInfo s1) = false ->
  song_hidden (songInfo s2) = true ->
  status_title (status s2) = "Download failed"
  /\ exists s3,
       tick s2 = Some s3
       /\ status s3 = started_status
       /\ song_hidden (songInfo s3) = true.
Proof.
  cbv zeta. intros Hnone Hshown Hhidden.
  destruct (single_attempt_end net endpoint url s) as [Hfail | Hdone].
  { destruct Hfail as (_ & _ & _ & _ & _ & Hsong & _). congruence. }
  destruct Hdone as (info & _ & _ & _ & Ht & _).
  rewrite Hnone in Ht. cbn [app] in Ht.
  set (s1 := snd (Single.startDownload net endpoint url s)) in *.
  destruct (single_attempt_end net' endpoint' url' s1) as [Hfail | Hdone].
  2:{ destruct Hdone as (info' & (Hsong & _) & _). congruence. }
  set (s2 := snd (Single.startDownload net' endpoint' url' s1)) in *.
  destruct Hfail as (_ & _ & Htitle & _ & _ & _ & Ht2 & _).
  split; [exact Htitle|].
  rewrite Ht in Ht2.
  destruct (earliest_of_three (now s1) 60000 (cb_remove (frames_created s))
              ltac:(lia)) as (He & Hd).
  pose proof (tick_earliest s2 _ _ _ (eq_trans (f_equal earliest Ht2) He)
                (eq_trans (f_equal (drop_timer _) Ht2) Hd)) as T.
  match type of T with _ = Some ?x => exists x end.
  split; [exact T|].
  match goal with
  | |- context [fire cb_success ?x] =>
      destruct (fire_success_fields x) as (_ & _ & _ & _ & A & B & _)
  end.
  cbv zeta in A, B. split; [exact B|]. rewrite A. exact Hhidden.
Qed.

Lemma input_error_whole_ext (s s' : state) :
  in_error (urlInput s') = in_error (urlInput s) ->
  inputError s' = inputError s ->
  inputHint_display s' = inputHint_display s ->
  input_error_whole s -> input_error_whole s'.
Proof. unfold input_error_whole. intros -> -> ->. exact (fun H => H). Qed.

Lemma clearInputError_whole (s : state) : input_error_whole (clearInputError s).
Proof. right. repeat split. Qed.

Lemma fire_input_error (cb : callback) (s : state) :
  input_error_whole s -> input_error_whole (snd (fire cb s)).
Proof.
  intros Hs. destruct cb as [| | f | f]; cbn [fire].
  - revert Hs. apply input_error_whole_ext; reflexivity.
  - right. repeat split.
  - destruct (attached f s) eqn:Ha; [|exact Hs].
    unfold removeChild. rewrite Ha. exact Hs.
  - unfold removeChild. destruct (attached f s); exact Hs.
Qed.

Lemma handleInputChange_whole (p : whole_page) :
  input_error_whole (core (handleInputChange p)).
Proof.
  destruct (handleInputChange_core p) as (-> & _).
  destruct (0 <? String.length (in_value (urlInput (core p))))%nat;
    right; repeat split.
Qed.

Lemma handleSubmit_whole (validateUrl : string -> bool)
    (startDownload : string -> M unit) :
  (forall url s, input_error_whole s ->
                 input_error_whole (snd (startDownload url s))) ->
  forall s, input_error_whole s ->
            input_error_whole (handleSubmit_of validateUrl startDownload s).
Proof.
  intros Hsd s Hs. unfold handleSubmit_of.
  destruct (isProcessing s); [exact Hs|].
  destruct (trim (in_value (urlInput s))) as [|c u].
  - left. repeat split. left. reflexivity.
  - destruct (validateUrl (String c u)); cbn [negb]; [apply Hsd, Hs|].
    left. repeat split. right. reflexivity.
Qed.

Lemma on_input_error_whole (handleSubmit : state -> state) :
  (forall s, input_error_whole s -> input_error_whole (handleSubmit s)) ->
  forall e p, input_error_whole (core p) ->
              input_error_whole (core (on handleSubmit e p)).
Proof.
  intros Hsub e p Hp. destruct e as [| value | | | |]; cbn [on].
  - apply Hsub, Hp.
  - apply handleInputChange_whole.
  - exact Hp.
  - right. repeat split.
  - destruct (tick (core p)) as [s'|] eqn:Ht; [|exact Hp].
    unfold tick in Ht.
    destruct (earliest (timers (core p))) as [[due cb]|]; [|discriminate].
    injection Ht as <-. cbn [core on_core]. apply fire_input_error.
    revert Hp. apply input_error_whole_ext; reflexivity.
  - destruct (paste_timers p) as [|due rest]; [exact Hp|].
    apply handleInputChange_whole.
Qed.

(** X17. The inline error of the input is never shown by halves.  Whatever
    happens to the page, either the input carries the error class, the
    error text is visible and is one of the two messages of [handleSubmit],
    and the hint is hidden; or the input carries no error class, the error
    text is not visible and the hint is back. *)
Theorem input_error_stays_whole net endpoint (es : list event)
    (p : whole_page) :
  input_error_whole (core p) ->
  input_error_whole (core (after (App.handleSubmit net endpoint) es p))
  /\ input_error_whole (core (after (Single.handleSubmit net endpoint) es p)).
Proof.
  intros Hp. split.
  - apply (after_keeps _ (fun q => input_error_whole (core q))); [|exact Hp].
    apply on_input_error_whole. apply handleSubmit_whole. intros url s.
    destruct (app_attempt_keeps_input net endpoint url s)
      as (_ & H1 & H2 & H3).
    apply input_error_whole_ext; assumption.
  - apply (after_keeps _ (fun q => input_error_whole (core q))); [|exact Hp].
    apply on_input_error_whole. apply handleSubmit_whole. intros url s.
    destruct (single_attempt_keeps_input net endpoint url s)
      as (_ & H1 & H2 & H3).
    apply input_error_whole_ext; assumption.
Qed.

(** ** File names that are safe already *)

Lemma filter_all (A : Type) (f : A -> bool) (l : list A) :
  Forall (fun x => f x = true) l -> filter f l = l.
Proof.
  induction 1 as [|x l Hx _ IH]; [reflexivity|].
  simpl. rewrite Hx, IH. reflexivity.
Qed.

Lemma blank_separated_tidy (r : list ascii) : blank_separated r -> tidy r.
Proof.
  induction r as [|c r IH]; [intros _; exact I|].
  intros [Hblank Hnext]. split.
  - intros Hc. split; [apply Hblank; [left; reflexivity | exact Hc]|].
    destruct r as [|d r]; [exact I|].
    apply (Hnext [] c d r eq_refl Hc).
  - apply IH. split.
    + intros x Hx. apply Hblank. right. exact Hx.
    + intros a x d b -> Hx. apply (Hnext (c :: a) x d b eq_refl Hx).
Qed.

Lemma collapse_of_tidy (l : list ascii) : tidy l -> collapse l = l.
Proof.
  induction l as [|c l IH]; [reflexivity|].
  intros [Hc Ht]. destruct (is_space c) eqn:Hs.
  - destruct (Hc eq_refl) as [-> Hd].
    rewrite (collapse_space_other " " l Hs Hd), (IH Ht). reflexivity.
  - rewrite (collapse_other c l Hs), (IH Ht). reflexivity.
Qed.

Lemma trim_of_trimmed (r : list ascii) :
  trimmed r -> trimEnd (trimStart r) = r.
Proof.
  intros [Hfirst Hlast].
  assert (Hstart : trimStart r = r).
  { destruct r as [|c t]; [reflexivity|].
    simpl. rewrite (Hfirst c t eq_refl). reflexivity. }
  rewrite Hstart. unfold trimEnd.
  destruct r as [|c0 t0]; [reflexivity|].
  destruct (exists_last (l := c0 :: t0)) as (t & c & Hr); [discriminate|].
  rewrite Hr, rev_app_distr. cbn [rev app trimStart].
  rewrite (Hlast t c Hr). cbn [rev]. rewrite rev_involutive. reflexivity.
Qed.

(** X18. [sanitizeFilename] leaves alone a name that is safe already: a
    title that is not empty, has at most 100 characters, none of them
    forbidden, and white space only as single blanks and neither first nor
    last, comes back unchanged. *)
Theorem sanitizeFilename_keeps_safe_names (t : string) :
  t <> "" ->
  List.length (chars t) <= 100 ->
  Forall (fun c => forbidden c = false) (chars t) ->
  blank_separated (chars t) ->
  trimmed (chars t) ->
  sanitizeFilename (Some t) = t.
Proof.
  intros Hne Hlen Hclean Hblank Htrim.
  rewrite sanitizeFilename_unfold.
  rewrite (filter_all _ (fun c => negb (forbidden c)) (chars t)).
  2:{ eapply Forall_impl; [|exact Hclean]. cbn. intros c ->. reflexivity. }
  rewrite (collapse_of_tidy _ (blank_separated_tidy _ Hblank)).
  unfold substring0. rewrite (firstn_all2 (n := 100) (chars t) Hlen).
  rewrite (trim_of_trimmed _ Htrim).
  unfold text, chars. rewrite string_of_list_ascii_of_string.
  destruct t as [|c t]; [contradiction|reflexivity].
Qed.

(** ** Durations of any length *)

Lemma two_digits_below_60 (n : Z) :
  (0 <= n < 60)%Z -> two_decimal (two_digits n) = true.
Proof.
  intros Hn.
  assert (Hall : forallb (fun k => two_decimal (two_digits (Z.of_nat k)))
                   (seq 0 60) = true) by (vm_compute; reflexivity).
  rewrite forallb_forall in Hall.
  rewrite <- (Z2Nat.id n) by lia. apply Hall, in_seq. lia.
Qed.

(** X19. The display of a positive whole duration below 2^53, where the
    doubles of the script are exact, loses nothing.  The seconds
    split into hours, minutes below 60 and seconds below 60; below an hour
    the text is the minutes, a colon and the seconds on two decimal digits,
    from an hour on it is the hours, a colon, the minutes on two decimal
    digits, a colon and the seconds on two decimal digits. *)
Theorem formatDuration_fields (z : Z) :
  (0 < z < 2 ^ 53)%Z ->
  exists h m s : Z,
    z = (3600 * h + 60 * m + s)%Z
    /\ (0 <= h)%Z /\ (0 <= m < 60)%Z /\ (0 <= s < 60)%Z
    /\ two_decimal (two_digits m) = true
    /\ two_decimal (two_digits s) = true
    /\ formatDuration (JNum z)
       = if (h =? 0)%Z
         then string_of_Z m ++ ":" ++ two_digits s
         else string_of_Z h ++ ":" ++ two_digits m ++ ":" ++ two_digits s.
Proof.
  intros Hz.
  exists (z / 3600)%Z, (Z.rem z 3600 / 60)%Z, (Z.rem z 60)%Z.
  rewrite !Z.rem_mod_nonneg by lia.
  assert (Hm : (0 <= z mod 3600 / 60 < 60)%Z).
  { pose proof (Z.mod_pos_bound z 3600 ltac:(lia)).
    split; [apply Z.div_pos; lia | apply Z.div_lt_upper_bound; lia]. }
  assert (Hs : (0 <= z mod 60 < 60)%Z) by (apply Z.mod_pos_bound; lia).
  assert (Hh : (0 <= z / 3600)%Z) by (apply Z.div_pos; lia).
  split.
  { pose proof (Z.div_mod z 3600 ltac:(lia)).
    pose proof (Z.div_mod (z mod 3600) 60 ltac:(lia)).
    assert ((z mod 3600) mod 60 = z mod 60)%Z.
    { apply Z.mod_mod_divide. exists 60%Z. reflexivity. }
    lia. }
  split; [exact Hh|]. split; [exact Hm|]. split; [exact Hs|].
  split; [apply two_digits_below_60, Hm|].
  split; [apply two_digits_below_60, Hs|].
  unfold formatDuration.
  cbn [truthy to_number num_le num_gt floor_div num_rem floor option_map
       toString].
  rewrite !Z.rem_mod_nonneg by lia.
  replace (z =? 0)%Z with false by (symmetry; apply Z.eqb_neq; lia).
  replace (z <=? 0)%Z with false by (symmetry; apply Z.leb_gt; lia).
  cbn [negb orb].
  destruct (Z.eqb_spec (z / 3600) 0) as [-> | Hne].
  - reflexivity.
  - replace (0 <? z / 3600)%Z with true by (symmetry; apply Z.ltb_lt; lia).
    reflexivity.
Qed.

(** ** The further statements at work *)

Lemma validate_ignores_case_witness :
  lower_case (chars "HTTPS://YouTu.Be/abc")
  = lower_case (chars "https://youtu.be/ABC")
  /\ App.validateUrl "HTTPS://YouTu.Be/abc"
     = App.validateUrl "https://youtu.be/ABC".
Proof.
  split; [reflexivity|].
  apply (validate_ignores_case "HTTPS://YouTu.Be/abc" "https://youtu.be/ABC").
  reflexivity.
Defined.

Lemma app_validate_ignores_surroundings_witness :
  App.validateUrl "youtu.be/abc123" = true
  /\ App.validateUrl ("listen to " ++ "youtu.be/abc123" ++ " tonight") = true.
Proof.
  split; [vm_compute; reflexivity|].
  apply (app_validate_ignores_surroundings "listen to " "youtu.be/abc123"
           " tonight").
  vm_compute. reflexivity.
Defined.

Lemma single_validate_ignores_rest_witness :
  Single.validateUrl "youtu.be/abc123" = true
  /\ Single.validateUrl ("youtu.be/abc123" ++ " and then some") = true.
Proof.
  split; [vm_compute; reflexivity|].
  apply (single_validate_ignores_rest "youtu.be/abc123" " and then some").
  vm_compute. reflexivity.
Defined.

Lemma single_validate_implies_app_witness :
  Single.validateUrl "https://music.youtube.com/watch?v=abc123" = true
  /\ App.validateUrl "https://music.youtube.com/watch?v=abc123" = true.
Proof.
  split; [vm_compute; reflexivity|].
  apply (single_validate_implies_app "https://music.youtube.com/watch?v=abc123").
  vm_compute. reflexivity.
Defined.

Lemma blank_input_is_empty_witness :
  error_text
    (inputError (App.handleSubmit (refusing "quota exceeded") serving
                   (idle_page "   ")))
  = "Please enter a YouTube link".
Proof.
  refine (f_equal (fun s => error_text (inputError s))
            (blank_input_is_empty App.validateUrl
               (App.startDownload (refusing "quota exceeded") serving)
               (idle_page "   ") _ _)).
  - reflexivity.
  - repeat constructor.
Defined.

Lemma info_request_injective_witness :
  info_request "youtu.be/a b" = info_request "youtu.be/a b"
  /\ "youtu.be/a b" = "youtu.be/a b".
Proof.
  split; [reflexivity|].
  apply (info_request_injective "youtu.be/a b" "youtu.be/a b"). reflexivity.
Defined.

Lemma fetchVideoInfo_copies_agree_witness :
  fst (Single.fetchVideoInfo (refusing "quota exceeded") "youtu.be/abc123"
         (idle_page "youtu.be/abc123"))
  = fst (App.fetchVideoInfo (refusing "quota exceeded") "youtu.be/abc123"
           (idle_page "youtu.be/abc123"))
  /\ fst (App.fetchVideoInfo (garbling "Unexpected end of JSON input")
            "youtu.be/abc123" (idle_page "youtu.be/abc123"))
     = Throw (new_Error "Server error. Please try again.").
Proof.
  split.
  - refine (proj1 (proj2 (fetchVideoInfo_copies_agree
              (refusing "quota exceeded") "youtu.be/abc123"
              (idle_page "youtu.be/abc123"))) _).
    intros ok why. vm_compute. discriminate.
  - refine (proj2 (proj2 (proj2 (fetchVideoInfo_copies_agree
              (garbling "Unexpected end of JSON input") "youtu.be/abc123"
              (idle_page "youtu.be/abc123")))
              true "Unexpected end of JSON input" _)).
    reflexivity.
Defined.




Lemma clear_button_follows_text_witness :
  clear_button_ok (init 1024 (loaded_page "youtu.be/abc123"))
  /\ clear_button_ok
       (after (Single.handleSubmit (refusing "quota exceeded") serving)
          [Paste; Input "youtu.be/xyz"; PasteTimer; Submit; ClickClear]
          (init 1024 (loaded_page "youtu.be/abc123"))).
Proof.
  assert (H : clear_button_ok (init 1024 (loaded_page "youtu.be/abc123")))
    by reflexivity.
  split; [exact H|].
  exact (proj2 (clear_button_follows_text (refusing "quota exceeded") serving
                  [Paste; Input "youtu.be/xyz"; PasteTimer; Submit; ClickClear]
                  (init 1024 (loaded_page "youtu.be/abc123")) H)).
Defined.

Lemma only_submit_requests_witness :
  requests
    (trace (core (on (App.handleSubmit (refusing "quota exceeded") serving)
                    ClickClear (init 1024 (loaded_page "youtu.be/abc123")))))
  = requests (trace (core (init 1024 (loaded_page "youtu.be/abc123")))).
Proof.
  apply (only_submit_requests
           (App.handleSubmit (refusing "quota exceeded") serving)
           ClickClear (init 1024 (loaded_page "youtu.be/abc123"))).
  discriminate.
Defined.

Lemma timer_callbacks_never_throw_witness :
  removals_ok (core (init 1024 (loaded_page "youtu.be/abc123")))
  /\ removals_ok
       (core (after (Single.handleSubmit (answering_from 0 (song 125)) serving)
                [Submit; Timer; Submit; Timer; Timer]
                (init 1024 (loaded_page "youtu.be/abc123")))).
Proof.
  assert (H : removals_ok (core (init 1024 (loaded_page "youtu.be/abc123")))).
  { split; [intros f []|]. split; [constructor|]. intros due f []. }
  split; [exact H|].
  exact (proj1 (proj2 (timer_callbacks_never_throw
                  (answering_from 0 (song 125)) serving
                  [Submit; Timer; Submit; Timer; Timer]
                  (init 1024 (loaded_page "youtu.be/abc123")) H))).
Defined.

Lemma done_attempt_unwinds_witness :
  unwinds 120000 0
    (snd (App.startDownload (answering_from 1 (song 125)) serving
            "youtu.be/abc123" (idle_page "youtu.be/abc123"))).
Proof.
  refine (proj1 (done_attempt_unwinds (answering_from 1 (song 125)) serving
                   "youtu.be/abc123" (idle_page "youtu.be/abc123") _) _).
  - reflexivity.
  - vm_compute. reflexivity.
Defined.

Lemma stale_success_replaces_error_witness :
  exists s3,
    tick (snd (Single.startDownload (refusing "quota exceeded") serving
                 "youtu.be/xyz"
                 (snd (Single.startDownload (answering_from 0 (song 125))
                         serving "youtu.be/abc123"
                         (idle_page "youtu.be/abc123")))))
    = Some s3
    /\ status s3 = started_status
    /\ song_hidden (songInfo s3) = true.
Proof.
  refine (proj2 (stale_success_replaces_error
                   (answering_from 0 (song 125)) serving "youtu.be/abc123"
                   (refusing "quota exceeded") serving "youtu.be/xyz"
                   (idle_page "youtu.be/abc123") _ _ _)).
  - reflexivity.
  - vm_compute. reflexivity.
  - vm_compute. reflexivity.
Defined.

Lemma input_error_stays_whole_witness :
  input_error_whole (core (init 1024 (loaded_page "vimeo.com/123")))
  /\ input_error_whole
       (core (after (App.handleSubmit (refusing "quota exceeded") serving)
                [Submit; Paste; PasteTimer; Submit]
                (init 1024 (loaded_page "vimeo.com/123")))).
Proof.
  assert (H : input_error_whole (core (init 1024 (loaded_page "vimeo.com/123"))))
    by (right; repeat split).
  split; [exact H|].
  exact (proj1 (input_error_stays_whole (refusing "quota exceeded") serving
                  [Submit; Paste; PasteTimer; Submit]
                  (init 1024 (loaded_page "vimeo.com/123")) H)).
Defined.

Lemma sanitizeFilename_keeps_safe_names_witness :
  sanitizeFilename (Some "My Song 01") = "My Song 01".
Proof.
  apply (sanitizeFilename_keeps_safe_names "My Song 01").
  - discriminate.
  - vm_compute. lia.
  - repeat constructor.
  - apply tidy_blank_separated. cbn. intuition discriminate.
  - split.
    + intros c t H. injection H as <- _. reflexivity.
    + intros t c H. apply (f_equal (@rev ascii)) in H.
      rewrite rev_app_distr in H. cbn in H. injection H as <- _. reflexivity.
Defined.

Lemma formatDuration_fields_witness :
  exists h m s : Z,
    3725%Z = (3600 * h + 60 * m + s)%Z
    /\ (0 <= h)%Z /\ (0 <= m < 60)%Z /\ (0 <= s < 60)%Z
    /\ two_decimal (two_digits m) = true
    /\ two_decimal (two_digits s) = true
    /\ formatDuration (JNum 3725)
       = if (h =? 0)%Z
         then string_of_Z m ++ ":" ++ two_digits s
         else string_of_Z h ++ ":" ++ two_digits m ++ ":" ++ two_digits s.
Proof. apply (formatDuration_fields 3725). lia. Defined.
